(** * rescape-graphene: field policies, model merge, CRUD-aware input types

    A shallow embedding of [rescape_graphene/schema_helpers.py].

    Python dictionaries are kept as association lists in insertion order
    (the order in which [map_dict] and [filter_dict] visit the entries, and
    the order in which a document lists its fields); the keys of such a list
    are its first components.  The registry behind [@memoize] is a finite map
    from (type identity, CRUD operation) to class handles, and class objects
    live in an append-only heap, so that reference equality of two classes is
    equality of their handles. *)

From stdpp Require Import base list strings gmap.
From Stdlib Require Import ZArith Ascii String.

Set Warnings "-register-all".

Local Open Scope string_scope.
Local Open Scope list_scope.

(** ** Vocabulary (lines 17-39 of schema_helpers.py) *)

Definition DENY : string := "deny".
Definition REQUIRE : string := "require".
Definition UNIQUE : string := "unique".
Definition PRIMARY : string := "primary".
Definition ALLOW : string := "allow".

Inductive Crud : Type := CREATE | READ | UPDATE | DELETE.


#[global] Instance Crud_eq_dec : EqDecision Crud.
Proof. solve_decision. Defined.

#[global] Instance Crud_countable : Countable Crud.
Proof.
  refine (inj_countable'
            (λ c, match c with CREATE => 0 | READ => 1 | UPDATE => 2 | DELETE => 3 end)
            (λ n, match n with 0 => CREATE | 1 => READ | 2 => UPDATE | _ => DELETE end) _).
  by intros [].
Defined.

(** ** Python values and dictionaries *)

Definition dict (V : Type) : Type := list (string * V).

Inductive pyval : Type :=
| VNone
| VBool (b : bool)
| VInt (z : Z)
| VStr (s : string)
| VList (l : list pyval)
| VDict (d : list (string * pyval)).

(** Exceptions that the modelled code can raise. *)
Inductive exn : Type :=
| KeyError | TypeError | AttributeError | RecursionError | UnknownFieldError.

Inductive result (A : Type) : Type :=
| Ok (a : A)
| Raise (e : exn).
Arguments Ok {A} a.
Arguments Raise {A} e.

#[global] Instance result_ret : MRet result := λ A a, Ok a.
#[global] Instance result_bind : MBind result :=
  λ A B k r, match r with Ok a => k a | Raise e => Raise e end.

(** ** Graphene and Django data *)

(** The graphene scalar classes of the table in [django_to_graphene_type];
    [Decimal] is the scalar declared at lines 43-62. *)
Inductive Scalar : Type :=
| graphene_Int | graphene_String | graphene_Boolean | graphene_Date
| graphene_DateTime | graphene_Time | Decimal | graphene_Float
| graphene_UUID | graphene_JSONString.

(** The class of a Django model field: the seventeen classes of the table,
    and any other class (a foreign key, a URL field, ...) by its name. *)
Inductive FieldClass : Type :=
| AutoField | IntegerField | BigAutoField | CharField | BigIntegerField
| BinaryField | BooleanField | NullBooleanField | DateField | DateTimeField
| TimeField | DecimalField | FloatField | EmailField | UUIDField | TextField
| JSONField
| OtherField (class_name : string).

Record DjangoField : Type := mkField {
  f_name : string;
  f_attname : string;
  f_class : FieldClass;
  f_primary_key : bool;
  f_unique : bool
}.

(** [model._meta]: the concrete fields and the unique-together groups. *)
Record Model : Type := mkModel {
  meta_fields : list DjangoField;
  meta_unique_together : list (list string)
}.

(** A graphene type class: [gt_id] stands for the identity of the class
    object, [gt_name] for its [__name__], [gt_model] for [_meta.model] when
    the class has one. *)
Record GrapheneType : Type := mkGrapheneType {
  gt_id : nat;
  gt_name : string;
  gt_model : option Model
}.

(** The value a field gives to a CRUD key: one tag, as in [create=REQUIRE],
    or a list of tags, as in [update=[REQUIRE, UNIQUE]] (line 22). *)
Inductive Permission : Type :=
| PTag (tag : string)
| PList (tags : list string).

(** An element of the [unique] list built by [process_field]: a tag, or the
    list of the unique-together groups the field belongs to. *)
Inductive UniqueTag : Type :=
| UTag (tag : string)
| UGroups (groups : list string).

(** A field dict value: the entries [type], [graphene_type], [fields], the
    CRUD keys and [unique].  A [type] is a graphene scalar class, some other
    class, or the curried [related_input_field_for_crud_type(value)] that
    [django_to_graphene_type] returns for a related field. *)
Inductive TypeEntry : Type :=
| TScalar (s : Scalar)
| TClass (class_name : string)
| TRelated (field_dict_value : FieldValue)
with FieldValue : Type :=
| FV (type : option TypeEntry)
     (graphene_type : option GrapheneType)
     (fields : option (list (string * FieldValue)))
     (perms : list (Crud * Permission))
     (unique : option (list UniqueTag)).

Definition fv_type (v : FieldValue) : option TypeEntry :=
  match v with FV t _ _ _ _ => t end.
Definition fv_graphene_type (v : FieldValue) : option GrapheneType :=
  match v with FV _ g _ _ _ => g end.
Definition fv_fields (v : FieldValue) : option (dict FieldValue) :=
  match v with FV _ _ f _ _ => f end.
Definition fv_perms (v : FieldValue) : list (Crud * Permission) :=
  match v with FV _ _ _ p _ => p end.
Definition fv_unique (v : FieldValue) : option (list UniqueTag) :=
  match v with FV _ _ _ _ u => u end.

(** [value[crud]], when the entry is there. *)
Fixpoint perm (crud : Crud) (ps : list (Crud * Permission)) : option Permission :=
  match ps with
  | [] => None
  | (c, p) :: ps' => if decide (crud = c) then Some p else perm crud ps'
  end.

Module Import R.
(** The helpers of the [ramda] module that schema_helpers.py imports as
    [R], each written from its name, from its use in schema_helpers.py and
    from what the specification says of the function that calls it. *)

(** Modelled from the spec: [R.keys] is missing from src/; the keys of a
    dictionary in insertion order. *)
Definition keys {V} (d : dict V) : list string := d.*1.

(** Modelled from the spec: [R.values] is missing from src/. *)
Definition values {V} (d : dict V) : list V := d.*2.

(** Modelled from the spec: [R.prop_or None] is missing from src/; the
    entry at [k], or nothing when the dictionary has none. *)
Fixpoint get {V} (k : string) (d : dict V) : option V :=
  match d with
  | [] => None
  | (k', v) :: d' => if String.eqb k k' then Some v else get k d'
  end.

(** Modelled from the spec: [R.prop] is missing from src/; the entry at
    [k], an error when there is none. *)
Definition prop {V} (k : string) (d : dict V) : result V :=
  match get k d with Some v => Ok v | None => Raise KeyError end.

(** Modelled from the spec: [R.has] is missing from src/; section 4.4 words
    it as "contains an identifier key". *)
Definition has {V} (k : string) (d : dict V) : bool :=
  match get k d with Some _ => true | None => false end.

(** Modelled from the spec: [R.filter_dict] is missing from src/; the
    entries whose (key, value) pair passes the test, in their order. *)
Definition filter_dict {V} (f : string * V → bool) (d : dict V) : dict V :=
  List.filter f d.

(** [R.filter_dict] for a test that can raise: the first exception ends
    the filter. *)
Fixpoint filter_dict_r {V} (f : string * V → result bool) (d : dict V)
  : result (dict V) :=
  match d with
  | [] => Ok []
  | kv :: d' =>
      b ← f kv; rest ← filter_dict_r f d';
      Ok (if b : bool then kv :: rest else rest)
  end.

(** Modelled from the spec: [R.map] is missing from src/; here for a
    function that can raise, applied from left to right. *)
Fixpoint map_r {A B} (f : A → result B) (l : list A) : result (list B) :=
  match l with
  | [] => Ok []
  | a :: l' => b ← f a; rest ← map_r f l'; Ok (b :: rest)
  end.

(** Modelled from the spec: [R.not_func] is missing from src/; Python's
    [not]. *)
Definition not_func (b : bool) : bool := negb b.

(** Modelled from the spec: [R.length] is missing from src/; used as a
    truth value, a length is true when it is not zero. *)
Definition length_truthy {A} (l : list A) : bool := negb (Nat.eqb (List.length l) 0).

(** Modelled from the spec: [R.prop_eq_or] is missing from src/; whether
    the entry at [key] equals [value], the default when there is no entry.
    A list of tags is not equal to a tag. *)
Definition prop_eq_or (default : bool) (key : Crud) (value : string)
           (dct : FieldValue) : bool :=
  match perm key (fv_perms dct) with
  | Some (PTag t) => String.eqb t value
  | Some (PList _) => false
  | None => default
  end.

(** Modelled from the spec: [R.prop_eq_or_in_or] is missing from src/;
    whether the entry at [key] equals [value] or is a list that has
    [value] in it, the default when there is no entry. *)
Definition prop_eq_or_in_or (default : bool) (key : Crud) (value : string)
           (dct : FieldValue) : bool :=
  match perm key (fv_perms dct) with
  | Some (PTag t) => String.eqb t value
  | Some (PList ts) => existsb (String.eqb value) ts
  | None => default
  end.

(** Modelled from the spec: [R.prop_eq_or_in] is missing from src/. *)
Definition prop_eq_or_in (key : Crud) (value : string) (dct : FieldValue) : bool :=
  prop_eq_or_in_or false key value dct.

(** Modelled from the spec: [R.item_path] is missing from src/; here at the
    path [[k, 'unique']].  Sections 4.5 and 7 make a lookup that finds no
    entry fail with UnknownFieldError. *)
Definition item_path_unique (k : string) (fields_dict : dict FieldValue)
  : result (list UniqueTag) :=
  match get k fields_dict with
  | None => Raise UnknownFieldError
  | Some v =>
      match fv_unique v with
      | None => Raise UnknownFieldError
      | Some u => Ok u
      end
  end.

(** [d[k] = v] on a dictionary: an existing key keeps its place. *)
Fixpoint set_item {V} (k : string) (v : V) (d : dict V) : dict V :=
  match d with
  | [] => [(k, v)]
  | (k', v') :: d' =>
      if String.eqb k k' then (k, v) :: d' else (k', v') :: set_item k v d'
  end.

(** [del d[k]]. *)
Definition del_item {V} (k : string) (d : dict V) : dict V :=
  List.filter (λ kv, negb (String.eqb k kv.1)) d.

(** Modelled from the spec: [R.from_pairs] is missing from src/; the
    dictionary of a list of pairs, a later pair replacing an earlier one
    with the same key. *)
Definition from_pairs {V} (pairs : list (string * V)) : dict V :=
  fold_left (λ acc kv, set_item kv.1 kv.2 acc) pairs [].

(** Modelled from the spec: [R.from_pairs_to_array_values] is missing from
    src/; each key with the list of all the values paired with it. *)
Fixpoint add_array_value {V} (k : string) (v : V) (d : dict (list V))
  : dict (list V) :=
  match d with
  | [] => [(k, [v])]
  | (k', vs) :: d' =>
      if String.eqb k k' then (k', vs ++ [v]) :: d'
      else (k', vs) :: add_array_value k v d'
  end.

Definition from_pairs_to_array_values {V} (pairs : list (string * V))
  : dict (list V) :=
  fold_left (λ acc kv, add_array_value kv.1 kv.2 acc) pairs [].

(** Modelled from the spec: [R.pick] is missing from src/; the entries of
    the dictionary at the given keys, a key without entry being skipped. *)
Definition pick {V} (names : list string) (d : dict V) : dict V :=
  omap (λ k, match get k d with Some v => Some (k, v) | None => None end) names.

(** Modelled from the spec: [R.merge_deep] is missing from src/; this is
    the merge of two values of one field.  Section 4.2: permissions come
    from the policy, uniqueness tags and the type from the reflected entry;
    an entry that only one side has is kept.  The right operand wins entry
    by entry. *)
Definition merge_value (a b : FieldValue) : FieldValue :=
  FV (match fv_type b with Some t => Some t | None => fv_type a end)
     (match fv_graphene_type b with Some g => Some g | None => fv_graphene_type a end)
     (match fv_fields b with Some f => Some f | None => fv_fields a end)
     (List.filter (λ cp, match perm cp.1 (fv_perms b) with
                         | Some _ => false
                         | None => true
                         end) (fv_perms a) ++ fv_perms b)
     (match fv_unique b with Some u => Some u | None => fv_unique a end).

(** Modelled from the spec: [R.merge_deep] on two field dicts: the entries
    of the left one in their order, each merged with the entry the right one
    has for its key, then the entries that only the right one has. *)
Definition merge_deep (a b : dict FieldValue) : dict FieldValue :=
  map (λ kv, match get kv.1 b with
             | Some vb => (kv.1, merge_value kv.2 vb)
             | None => kv
             end) a
  ++ List.filter (λ kv, negb (has kv.1 a)) b.
End R.

(** ** CRUD intent (lines 274-283) *)

Definition guess_update_or_create {V} (fields_dict : dict V) : Crud :=
  if has "id" fields_dict then UPDATE else CREATE.

(** ** The upsert partitioner (lines 323-350) *)

(** [dict(defaults=..., **rest)]: one flat dictionary; Python refuses a
    keyword given twice with a TypeError. *)
Definition dict_defaults (defaults rest : dict pyval) : result (dict pyval) :=
  if has "defaults" rest then Raise TypeError
  else Ok (("defaults", VDict defaults) :: rest).

Definition input_type_parameters_for_update_or_create
           (fields_dict : dict FieldValue) (values : dict pyval)
  : result (dict pyval) :=
  defaults ← filter_dict_r
    (λ key_value, u ← item_path_unique key_value.1 fields_dict;
                  Ok (not_func (length_truthy u))) values;
  rest ← filter_dict_r
    (λ key_value, u ← item_path_unique key_value.1 fields_dict;
                  Ok (length_truthy u)) values;
  dict_defaults defaults rest.

(** ** Reflection of a Django model (lines 132-245) *)

Definition django_to_graphene_type (field : DjangoField)
           (field_dict_value : option FieldValue) : result TypeEntry :=
  match field_dict_value with
  | Some (FV _ (Some _) _ _ _ as v) => Ok (TRelated v)
  | _ =>
      match f_class field with
      | AutoField => Ok (TScalar graphene_Int)
      | IntegerField => Ok (TScalar graphene_Int)
      | BigAutoField => Ok (TScalar graphene_Int)
      | CharField => Ok (TScalar graphene_String)
      | BigIntegerField => Ok (TScalar graphene_Int)
      | BinaryField => Ok (TScalar graphene_Int)
      | BooleanField => Ok (TScalar graphene_Boolean)
      | NullBooleanField => Ok (TScalar graphene_Boolean)
      | DateField => Ok (TScalar graphene_Date)
      | DateTimeField => Ok (TScalar graphene_DateTime)
      | TimeField => Ok (TScalar graphene_Time)
      | DecimalField => Ok (TScalar Decimal)
      | FloatField => Ok (TScalar graphene_Float)
      | EmailField => Ok (TScalar graphene_String)
      | UUIDField => Ok (TScalar graphene_UUID)
      | TextField => Ok (TScalar graphene_String)
      | JSONField => Ok (TScalar graphene_JSONString)
      | OtherField _ => Raise KeyError
      end
  end.

(** [R.compact] drops the [None] elements of the three-element list. *)
Definition process_field (field_to_unique_field_groups : dict (list string))
           (field : DjangoField) (field_dict_value : option FieldValue)
  : result FieldValue :=
  let unique :=
    (if f_primary_key field then [UTag PRIMARY] else [])
    ++ (if f_unique field then [UTag UNIQUE] else [])
    ++ (match get (f_attname field) field_to_unique_field_groups with
        | Some groups => [UGroups groups]
        | None => []
        end) in
  type ← django_to_graphene_type field field_dict_value;
  Ok (FV (Some type) None None [] (Some unique)).

Definition parse_django_class (model : Model) (field_dict : dict FieldValue)
  : result (dict FieldValue) :=
  let field_to_unique_field_groups :=
    from_pairs_to_array_values
      (List.concat
         (map (λ uniq_field_group,
                 map (λ attrname, (attrname, String.concat "," uniq_field_group))
                     uniq_field_group)
              (meta_unique_together model))) in
  pairs ← map_r
    (λ field,
       v ← prop (f_name field) field_dict;
       p ← process_field field_to_unique_field_groups field (Some v);
       Ok (f_name field, p))
    (List.filter (λ field, has (f_name field) field_dict) (meta_fields model));
  Ok (from_pairs pairs).

Definition merge_with_django_properties (graphene_type : GrapheneType)
           (field_dict : dict FieldValue) : result (dict FieldValue) :=
  match gt_model graphene_type with
  | None => Raise AttributeError
  | Some model =>
      parsed ← parse_django_class model field_dict;
      Ok (merge_deep field_dict (pick (keys field_dict) parsed))
  end.

(** ** Class objects, the registry and the monad of the generator *)

(** A handle is the address of a class object in the heap: two class
    objects are the same object exactly when their handles are equal. *)
Abbreviation handle := nat (only parsing).

(** What a class attribute of a generated input type holds: an instance of
    the field's type, with its [required] flag when the constructor is
    given one. *)
Inductive FieldInstance : Type :=
| ScalarInstance (s : Scalar) (required : bool)
| ClassInstance (class_name : string) (required : bool)
| InputField (type : handle) (required : bool)
| InputObject (type : handle).

Definition required (i : FieldInstance) : bool :=
  match i with
  | ScalarInstance _ r | ClassInstance _ r | InputField _ r => r
  | InputObject _ => false
  end.

(** The class made by [type(name, (InputObjectType,), attrs)]. *)
Record ClassDef : Type := mkClass {
  class_name : string;
  class_attrs : dict FieldInstance
}.

Record State : Type := mkState {
  cache : gmap (nat * Crud) handle;
  heap : list ClassDef
}.

Definition M (A : Type) : Type := State → result A * State.

#[global] Instance M_ret : MRet M := λ A a s, (Ok a, s).
#[global] Instance M_bind : MBind M :=
  λ A B k m s, match m s with
               | (Ok a, s') => k a s'
               | (Raise e, s') => (Raise e, s')
               end.

Definition raise {A} (e : exn) : M A := λ s, (Raise e, s).

Definition lift {A} (r : result A) : M A := λ s, (r, s).

(** [type(...)]: a new class object, at a fresh address. *)
Definition new_class (c : ClassDef) : M handle :=
  λ s, (Ok (List.length (heap s)), mkState (cache s) (heap s ++ [c])).

(** Modelled from the spec: the [memoize] decorator is missing from src/.
    Section 4.3: look the key up in the process-wide registry before
    constructing anything; if present, return the existing handle
    unchanged; only on a miss build a new handle, register it, and return
    it.  An exception leaves the registry as the call found it. *)
Definition memoize {A B : Type} (map_args : A * B → result (nat * Crud))
           (f : A → B → M handle) (a : A) (b : B) : M handle :=
  λ s, match map_args (a, b) with
       | Raise e => (Raise e, s)
       | Ok key =>
           match cache s !! key with
           | Some h => (Ok h, s)
           | None =>
               match f a b s with
               | (Ok h, s') => (Ok h, mkState (<[key := h]> (cache s')) (heap s'))
               | (Raise e, s') => (Raise e, s')
               end
           end
       end.

(** Modelled from the spec: [R.map_dict] is missing from src/; the function
    is applied to the values in the order of the dictionary. *)
Fixpoint map_dict {A B} (f : A → M B) (d : dict A) : M (dict B) :=
  match d with
  | [] => mret []
  | (k, a) :: d' => b ← f a; rest ← map_dict f d'; mret ((k, b) :: rest)
  end.

(** [camelize(crud, True)] on the four CRUD names. *)
Definition camelize_crud (crud : Crud) : string :=
  match crud with
  | CREATE => "Create" | READ => "Read" | UPDATE => "Update" | DELETE => "Delete"
  end.

(** ** The type generator (lines 69-99 and 248-320) *)

(** ['%sRelated%sInputType' % (graphene_class.__name__, camelize(crud, True))] *)
Definition class_name_for (graphene_class : GrapheneType) (crud : Crud) : string :=
  gt_name graphene_class +:+ "Related" +:+ camelize_crud crud +:+ "InputType".

(** The field dict handed to [input_type_fields] at lines 92-96: the fields
    of the value merged with the model of the type when it has one, the
    fields as they are otherwise. *)
Definition class_fields (graphene_class : GrapheneType)
           (field_dict_value : FieldValue) : result (dict FieldValue) :=
  match fv_fields field_dict_value with
  | Some fields =>
      match gt_model graphene_class with
      | Some _ => merge_with_django_properties graphene_class fields
      | None => Ok fields
      end
  | None => Raise KeyError
  end.

Section generator.
(** The global name [input_type_class], as the bodies below call it. *)
Variable input_type_class : FieldValue → Crud → M handle.

(** A [type] that is a function is the curried
    [related_input_field_for_crud_type(field_dict_value)]: applied to the
    crud and then to [required=...] it is
    [graphene.InputField(input_type_class(field_dict_value, crud), required=...)]
    (lines 116 and 129). *)
Definition instantiate_graphene_type (value : FieldValue) (crud : Crud)
  : M FieldInstance :=
  graphene_type ← lift (match fv_type value with
                        | Some t => Ok t
                        | None => Raise KeyError
                        end);
  let required := prop_eq_or_in_or false crud REQUIRE value in
  match graphene_type with
  | TRelated field_dict_value =>
      h ← input_type_class field_dict_value crud;
      mret (InputField h required)
  | TScalar s => mret (ScalarInstance s required)
  | TClass n => mret (ClassInstance n required)
  end.

Definition input_type_fields (fields_dict : dict FieldValue)
           (crud : option Crud) : M (dict FieldInstance) :=
  let crud := match crud with
              | Some c => c
              | None => guess_update_or_create fields_dict
              end in
  map_dict
    (λ value, instantiate_graphene_type value crud)
    (filter_dict
       (λ key_value, not_func (prop_eq_or false crud DENY key_value.2))
       fields_dict).

(** The undecorated body of [input_type_class]. *)
Definition input_type_class_body (field_dict_value : FieldValue) (crud : Crud)
  : M handle :=
  graphene_class ← lift (match fv_graphene_type field_dict_value with
                         | Some g => Ok g
                         | None => Raise KeyError
                         end);
  fields ← lift (class_fields graphene_class field_dict_value);
  attrs ← input_type_fields fields (Some crud);
  new_class (mkClass (class_name_for graphene_class crud) attrs).

Definition allowed_query_arguments (fields_dict : dict FieldValue)
  : M (dict FieldInstance) :=
  map_dict
    (λ value,
       type ← lift (match fv_type value with
                    | Some t => Ok t
                    | None => Raise KeyError
                    end);
       match type with
       | TScalar s => mret (ScalarInstance s false)
       | _ => h ← input_type_class value READ; mret (InputObject h)
       end)
    (filter_dict
       (λ key_value, not_func (prop_eq_or_in READ DENY key_value.2))
       fields_dict).
End generator.

(** The key of the decorator, [lambda args: [args[0]['graphene_type'], args[1]]]. *)
Definition map_args (args : FieldValue * Crud) : result (nat * Crud) :=
  match fv_graphene_type args.1 with
  | Some g => Ok (gt_id g, args.2)
  | None => Raise KeyError
  end.

(** The decorated [input_type_class].  [depth] is the number of nested calls
    the interpreter still allows: a related field calls [input_type_class]
    again from inside the body, and Python ends a recursion that goes too
    deep with a RecursionError. *)
Fixpoint input_type_class (depth : nat) (field_dict_value : FieldValue)
         (crud : Crud) : M handle :=
  memoize map_args
    (match depth with
     | 0 => λ _ _, raise RecursionError
     | S d => input_type_class_body (input_type_class d)
     end)
    field_dict_value crud.

(** One call of the generator, by any of its entry points. *)
Inductive call : State → State → Prop :=
| call_input_type_class depth v crud s r s' :
    input_type_class depth v crud s = (r, s') → call s s'
| call_input_type_fields depth fields_dict crud s r s' :
    input_type_fields (input_type_class depth) fields_dict crud s = (r, s') →
    call s s'
| call_instantiate_graphene_type depth v crud s r s' :
    instantiate_graphene_type (input_type_class depth) v crud s = (r, s') →
    call s s'
| call_allowed_query_arguments depth fields_dict s r s' :
    allowed_query_arguments (input_type_class depth) fields_dict s = (r, s') →
    call s s'.

(** [later s s']: the process went from [s] to [s'] by calls of the
    generator. *)
Inductive later : State → State → Prop :=
| later_now s : later s s
| later_call s s1 s2 : later s s1 → call s1 s2 → later s s2.

(** The field's permission for [crud] is the tag, or a list with the tag. *)
Definition marks (crud : Crud) (tag : string) (v : FieldValue) : Prop :=
  match perm crud (fv_perms v) with
  | Some (PTag t) => t = tag
  | Some (PList ts) => tag ∈ ts
  | None => False
  end.

(** ** The query document (lines 353-402) *)

Definition nl : string := String "010"%char "".

Definition upper (a : ascii) : ascii :=
  let n := nat_of_ascii a in
  if (97 <=? n)%nat && (n <=? 122)%nat then ascii_of_nat (n - 32) else a.

Definition lower (a : ascii) : ascii :=
  let n := nat_of_ascii a in
  if (65 <=? n)%nat && (n <=? 90)%nat then ascii_of_nat (n + 32) else a.

(** [inflection.camelize(key, False)]: the character after an underscore is
    put in upper case and the underscore dropped; the first character is
    put in lower case. *)
Fixpoint camelize_tail (s : string) : string :=
  match s with
  | String "_"%char (String c s') => String (upper c) (camelize_tail s')
  | String c s' => String c (camelize_tail s')
  | EmptyString => EmptyString
  end.

Definition camelize (s : string) : string :=
  match s with
  | String c s' => String (lower c) (camelize_tail s')
  | EmptyString => EmptyString
  end.

(** Modelled from the spec: [dump_graphql_keys] of graphene_helpers is
    missing from src/.  Sections 4.6 and 6: the selection lists the fields of
    the spec, one per line and in the camel-case wire convention, and
    recurses into a field that has [fields] of its own to produce a nested
    selection. *)
Fixpoint dump_graphql_key (k : string) (v : FieldValue) {struct v} : string :=
  match v with
  | FV _ _ (Some fields) _ _ =>
      camelize k +:+ " {" +:+ nl
      +:+ String.concat nl
            ((fix dump_all (d : list (string * FieldValue)) : list string :=
                match d with
                | [] => []
                | (k', v') :: d' => dump_graphql_key k' v' :: dump_all d'
                end) fields)
      +:+ nl +:+ "}"
  | FV _ _ None _ _ => camelize k
  end.

Definition dump_graphql_keys (fields : dict FieldValue) : string :=
  String.concat nl (map (λ kv, dump_graphql_key kv.1 kv.2) fields).

Definition spaces (n : nat) : string := String.concat "" (replicate n " ").

(** [graphql_query(query_name, fields)(client, variable_definitions,
    field_overrides, **kwargs)]: the document is handed to
    [client.execute] together with the keyword arguments. *)
Definition graphql_query {K A : Type} (query_name : string)
           (fields : dict FieldValue) (client_execute : string → K → A)
           (variable_definitions : dict string)
           (field_overrides : dict FieldValue) (kwargs : K) : A :=
  let formatted_definitions :=
    String.concat ", "
      (values (map (λ kv, (kv.1, "$" +:+ kv.1 +:+ ": " +:+ kv.2 +:+ "!"))
                   variable_definitions)) in
  let query :=
    "query someMadeUpString"
    +:+ (if String.eqb formatted_definitions "" then ""
         else "(" +:+ formatted_definitions +:+ ")")
    +:+ " { " +:+ nl
    +:+ spaces 16 +:+ query_name
    +:+ (match variable_definitions with
         | [] => ""
         | _ => "(" +:+ String.concat ", "
                          (map (λ key, key +:+ ": $" +:+ key)
                               (keys variable_definitions)) +:+ ")"
         end)
    +:+ " {" +:+ nl
    +:+ spaces 20
    +:+ dump_graphql_keys (match field_overrides with
                           | [] => fields
                           | _ => field_overrides
                           end) +:+ nl
    +:+ spaces 16 +:+ "}" +:+ nl
    +:+ spaces 12 +:+ "}" in
  client_execute query kwargs.

(** The words of a document: its maximal runs of characters other than
    blanks and line ends. *)
Fixpoint words_from (cur : string) (s : string) : list string :=
  let flush := if String.eqb cur "" then [] else [cur] in
  match s with
  | EmptyString => flush
  | String c s' =>
      if Ascii.eqb c " " || Ascii.eqb c "010" then flush ++ words_from "" s'
      else words_from (cur +:+ String c "") s'
  end.

Definition words (s : string) : list string := words_from "" s.

(** ** Predicates of the statements *)

(** The key has an entry in the field specs and the entry carries its list
    of uniqueness tags: the key is that of a resolved spec. *)
Definition resolved (fields_dict : dict FieldValue) (k : string) : Prop :=
  ∃ v u, get k fields_dict = Some v ∧ fv_unique v = Some u.

(** The spec of the key has a nonempty list of uniqueness tags. *)
Definition is_match_key (fields_dict : dict FieldValue) (k : string) : bool :=
  match get k fields_dict with
  | Some v => match fv_unique v with
              | Some (_ :: _) => true
              | _ => false
              end
  | None => false
  end.

(** The fields of the mapping table of [django_to_graphene_type]. *)
Definition mapped (c : FieldClass) : bool :=
  match c with OtherField _ => false | _ => true end.

(** [extends s s']: every registered key of [s] is registered in [s'] with
    the same handle, and every class of [s] is in [s'] at the same address. *)
Definition extends (s s' : State) : Prop :=
  cache s ⊆ cache s' ∧ heap s `prefix_of` heap s'.

(** A computation of the generator that only adds to the state. *)
Definition grows {A} (m : M A) : Prop :=
  ∀ s r s', m s = (r, s') → extends s s'.

(** [generable depth crud v]: the value names its graphene type and its
    fields, the fields resolve, every field that the operation is not denied
    has a type, and the value of every related field among them is
    generable one level further down. *)
Fixpoint generable (depth : nat) (crud : Crud) (v : FieldValue) : Prop :=
  match depth with
  | 0 => False
  | S d =>
      ∃ g fields,
        fv_graphene_type v = Some g
        ∧ class_fields g v = Ok fields
        ∧ ∀ k w, (k, w) ∈ fields →
                 prop_eq_or false crud DENY w = false →
                 match fv_type w with
                 | Some (TRelated v') => generable d crud v'
                 | Some _ => True
                 | None => False
                 end
  end.

(** ** Example data *)

(** The registry and the heap of a process that has generated nothing. *)
Definition s_empty : State := mkState ∅ [].

Definition WidgetType : GrapheneType := mkGrapheneType 7 "WidgetType" None.

Definition widget_id_only : FieldValue :=
  FV None (Some WidgetType)
     (Some [("id", FV (Some (TScalar graphene_Int)) None None
                      [(CREATE, PTag REQUIRE)] None)])
     [] None.

Definition widget_id_name : FieldValue :=
  FV None (Some WidgetType)
     (Some [("id", FV (Some (TScalar graphene_Int)) None None
                      [(CREATE, PTag REQUIRE)] None);
            ("name", FV (Some (TScalar graphene_String)) None None [] None)])
     [] None.

(** A type with a model, and a value of it with a related field: the
    [owner] of a job is a user, referred to by its [id]. *)
Definition UserType : GrapheneType :=
  mkGrapheneType 1 "UserType"
    (Some (mkModel [mkField "id" "id" AutoField true false;
                    mkField "username" "username" CharField false true] [])).

Definition JobType : GrapheneType :=
  mkGrapheneType 2 "JobType"
    (Some (mkModel [mkField "id" "id" AutoField true false;
                    mkField "key" "key" CharField false false;
                    mkField "owner" "owner_id" (OtherField "ForeignKey")
                            false false]
                   [["key"; "owner"]])).

Definition job_policy : FieldValue :=
  FV None (Some JobType)
     (Some [("id", FV None None None
                      [(CREATE, PTag DENY); (UPDATE, PList [REQUIRE])] None);
            ("key", FV None None None [(CREATE, PTag REQUIRE)] None);
            ("owner", FV None (Some UserType)
                         (Some [("id", FV None None None
                                          [(CREATE, PTag REQUIRE)] None)])
                         [] None)])
     [] None.

(** ** Further parts of schema_helpers.py *)

(** The map from an attribute to the unique-together groups it is in, as
    [parse_django_class] computes it at lines 204-215. *)
Definition field_to_unique_field_groups (model : Model) : dict (list string) :=
  from_pairs_to_array_values
    (List.concat
       (map (λ uniq_field_group,
               map (λ attrname, (attrname, String.concat "," uniq_field_group))
                   uniq_field_group)
            (meta_unique_together model))).

Section related.
(** The global name [input_type_class]. *)
Variable input_type_class : FieldValue → Crud → M handle.

(** [related_input_field] (lines 102-116): the keyword arguments handed to
    [graphene.InputField] are kept as the [required] flag, the only one the
    callers in this file give. *)
Definition related_input_field (field_dict_value : FieldValue)
           (required : bool) : Crud → M FieldInstance :=
  λ crud, h ← input_type_class field_dict_value crud;
          mret (InputField h required).

(** [related_input_field_for_crud_type] (lines 119-129). *)
Definition related_input_field_for_crud_type (field_dict_value : FieldValue)
           (crud : Crud) : bool → M FieldInstance :=
  λ required, related_input_field field_dict_value required crud.
End related.

(** Every registered handle is the address of a class in the heap. *)
Definition registry_valid (s : State) : Prop :=
  ∀ key h, cache s !! key = Some h → h < List.length (heap s).

(** A computation of the generator that keeps the registry valid, and one
    that moreover returns a handle of the heap. *)
Definition keeps {A} (m : M A) : Prop :=
  ∀ s r s', registry_valid s → m s = (r, s') → registry_valid s'.

Definition keeps_handle (m : M handle) : Prop :=
  keeps m
  ∧ ∀ s h s', registry_valid s → m s = (Ok h, s') → h < List.length (heap s').


Section update_or_create.
(** [dump_graphql_data_object] of graphene_helpers, which renders the values
    as the argument object of the mutation. *)
Variable dump_graphql_data_object : dict pyval → string.

End update_or_create.

(** The document that [graphql_query] hands to the client. *)
Definition query_document (query_name : string) (fields : dict FieldValue)
           (variable_definitions : dict string)
           (field_overrides : dict FieldValue) : string :=
  graphql_query query_name fields (λ document (_ : unit), document)
                variable_definitions field_overrides tt.

(** A type related to itself: the [parent] of a node is a node, referred
    to by its [id] (the nested policy is narrowed to the identifier). *)
Definition NodeType : GrapheneType :=
  mkGrapheneType 9 "NodeType"
    (Some (mkModel [mkField "id" "id" AutoField true false;
                    mkField "parent" "parent_id" (OtherField "ForeignKey")
                            false false] [])).

Definition node_by_id : FieldValue :=
  FV None (Some NodeType)
     (Some [("id", FV None None None [(CREATE, PTag REQUIRE)] None)])
     [] None.

Definition node_policy : FieldValue :=
  FV None (Some NodeType)
     (Some [("id", FV None None None [(CREATE, PTag DENY)] None);
            ("parent", node_by_id)])
     [] None.

(** * Properties *)

(** ** Dictionaries *)

Lemma elem_of_List_filter {A} (f : A → bool) (l : list A) (x : A) :
  x ∈ List.filter f l ↔ x ∈ l ∧ f x = true.
Proof. rewrite !list_elem_of_In. apply filter_In. Qed.

Lemma elem_of_keys {V} (k : string) (d : dict V) :
  k ∈ keys d ↔ ∃ v, (k, v) ∈ d.
Proof.
  unfold keys. rewrite list_elem_of_fmap. split.
  - intros [[k' v] [-> Hin]]. by exists v.
  - intros [v Hin]. by exists (k, v).
Qed.

Lemma get_Some_keys {V} (k : string) (d : dict V) :
  is_Some (get k d) ↔ k ∈ keys d.
Proof.
  unfold keys. induction d as [|[k' v] d IH]; simpl.
  - split; [intros [? [=]] | intros H; inversion H].
  - destruct (String.eqb_spec k k') as [->|Hne].
    + split; [intros _; left | intros _; eauto].
    + rewrite IH. split; [by right |].
      intros H. inversion H; subst; [done | assumption].
Qed.

Lemma get_None_keys {V} (k : string) (d : dict V) :
  get k d = None ↔ k ∉ keys d.
Proof. rewrite <- get_Some_keys, eq_None_not_Some. done. Qed.

Lemma has_keys {V} (k : string) (d : dict V) :
  has k d = true ↔ k ∈ keys d.
Proof.
  rewrite <- get_Some_keys. unfold has.
  destruct (get k d); split; intros H; eauto; try done.
Qed.

Lemma get_set_item_ne {V} (k k' : string) (v : V) (d : dict V) :
  k ≠ k' → get k (set_item k' v d) = get k d.
Proof.
  intros Hne. induction d as [|[k0 v0] d IH]; simpl.
  - destruct (String.eqb_spec k k'); [done | reflexivity].
  - destruct (String.eqb_spec k' k0) as [->|Hk0]; simpl.
    + destruct (String.eqb_spec k k0); [done | reflexivity].
    + destruct (String.eqb_spec k k0); [reflexivity | exact IH].
Qed.

Lemma get_del_item_ne {V} (k k' : string) (d : dict V) :
  k ≠ k' → get k (del_item k' d) = get k d.
Proof.
  intros Hne. unfold del_item. induction d as [|[k0 v0] d IH]; simpl; [done |].
  destruct (String.eqb_spec k' k0) as [->|Hk0]; simpl.
  - destruct (String.eqb_spec k k0); [done | exact IH].
  - destruct (String.eqb_spec k k0); [reflexivity | exact IH].
Qed.

(** A filter whose test never raises is the plain filter. *)
Lemma filter_dict_r_total {V} (f : string * V → result bool)
      (g : string * V → bool) (d : dict V) :
  (∀ kv, kv ∈ d → f kv = Ok (g kv)) →
  filter_dict_r f d = Ok (List.filter g d).
Proof.
  induction d as [|kv d IH]; intros Hf; simpl; [done |].
  rewrite (Hf kv) by left. simpl.
  rewrite IH by (intros; apply Hf; by right). simpl.
  by destruct (g kv).
Qed.

(** A filter whose test can raise only [e], and raises it on some entry,
    raises [e]. *)
Lemma filter_dict_r_raise {V} (f : string * V → result bool) (e : exn)
      (d : dict V) :
  (∀ kv, kv ∈ d → f kv = Raise e ∨ ∃ b, f kv = Ok b) →
  (∃ kv, kv ∈ d ∧ f kv = Raise e) →
  filter_dict_r f d = Raise e.
Proof.
  induction d as [|kv d IH]; intros Hall [kv0 [Hin Hkv0]].
  - inversion Hin.
  - simpl. destruct (Hall kv) as [Hr | [b Hb]]; [left | by rewrite Hr |].
    rewrite Hb. simpl.
    apply elem_of_cons in Hin as [-> | Hin]; [congruence |].
    rewrite IH; [done | intros; apply Hall; by right | eauto].
Qed.

(** ** C4: the intent resolver *)

(** C4. [guess_update_or_create] answers UPDATE exactly when the values bag
    has the key [id] and CREATE otherwise; the two bags of the specification
    resolve to UPDATE and CREATE; and writing or deleting any key other than
    [id] leaves the answer unchanged. *)
Theorem guess_update_or_create_by_id :
  (∀ bag : dict pyval,
      guess_update_or_create bag
      = if decide ("id" ∈ keys bag) then UPDATE else CREATE)
  ∧ guess_update_or_create [("id", VInt 5); ("name", VStr "x")] = UPDATE
  ∧ guess_update_or_create [("name", VStr "x")] = CREATE
  ∧ (∀ (bag : dict pyval) (k : string) (v : pyval),
        k ≠ "id" →
        guess_update_or_create (set_item k v bag) = guess_update_or_create bag
        ∧ guess_update_or_create (del_item k bag) = guess_update_or_create bag).
Proof.
  split_and!; [| reflexivity | reflexivity |].
  - intros bag. unfold guess_update_or_create.
    destruct (has "id" bag) eqn:Hh.
    + apply has_keys in Hh. by rewrite decide_True.
    + rewrite decide_False; [done |]. intros Hin. apply has_keys in Hin. congruence.
  - intros bag k v Hne. unfold guess_update_or_create, has.
    rewrite get_set_item_ne, get_del_item_ne by congruence. done.
Qed.

(** A bag with [id] keeps its UPDATE intent when [name] is written or
    deleted. *)
Lemma guess_update_or_create_by_id_witness :
  let bag := [("id", VInt 5)] in
  guess_update_or_create (set_item "name" (VStr "x") bag) = UPDATE
  ∧ guess_update_or_create (del_item "name" bag) = UPDATE.
Proof.
  intros bag.
  exact (proj2 (proj2 (proj2 guess_update_or_create_by_id)) bag "name" (VStr "x")
               ltac:(discriminate)).
Defined.

(** ** C5 and C6: the upsert partitioner *)

Lemma item_path_unique_resolved fields_dict k :
  resolved fields_dict k →
  ∃ u, item_path_unique k fields_dict = Ok u
       ∧ length_truthy u = is_match_key fields_dict k.
Proof.
  intros (v & u & Hv & Hu). exists u.
  unfold item_path_unique, is_match_key. rewrite Hv, Hu.
  split; [done | by destruct u].
Qed.

Lemma partition_filters fields_dict (bag : dict pyval) :
  (∀ k, k ∈ keys bag → resolved fields_dict k) →
  input_type_parameters_for_update_or_create fields_dict bag
  = dict_defaults
      (List.filter (λ kv, negb (is_match_key fields_dict kv.1)) bag)
      (List.filter (λ kv, is_match_key fields_dict kv.1) bag).
Proof.
  intros Hres. unfold input_type_parameters_for_update_or_create.
  rewrite (filter_dict_r_total _ (λ kv, is_match_key fields_dict kv.1)).
  2:{ intros [k v] Hin. simpl.
      destruct (item_path_unique_resolved fields_dict k) as (u & Hu & Hlen);
        [apply Hres, elem_of_keys; eauto |].
      rewrite Hu. simpl. by rewrite Hlen. }
  simpl.
  rewrite (filter_dict_r_total _ (λ kv, negb (is_match_key fields_dict kv.1))).
  2:{ intros [k v] Hin. simpl.
      destruct (item_path_unique_resolved fields_dict k) as (u & Hu & Hlen);
        [apply Hres, elem_of_keys; eauto |].
      rewrite Hu. simpl. by rewrite Hlen. }
  done.
Qed.

(** C5, as the code has it. For every values bag whose keys all belong to
    resolved specs, and in which no uniqueness-tagged key is called
    [defaults], the partitioner returns one flat dictionary: the entry
    [defaults] holds the entries of the bag whose spec has no uniqueness tag,
    and the entries whose spec has a nonempty list of tags (the match keys)
    follow it at top level.  The two key sets are disjoint and their union
    is the key set of the bag.  With [name] tagged unique and [note]
    untagged, the bag {name: "a", note: "b"} gives the match keys
    {name: "a"} and the defaults {note: "b"}. *)
Theorem partition_splits_resolved_bag :
  (∀ (fields_dict : dict FieldValue) (bag : dict pyval),
      (∀ k, k ∈ keys bag → resolved fields_dict k) →
      ¬ ("defaults" ∈ keys bag ∧ is_match_key fields_dict "defaults" = true) →
      let matchKeys := List.filter (λ kv, is_match_key fields_dict kv.1) bag in
      let defaults :=
        List.filter (λ kv, negb (is_match_key fields_dict kv.1)) bag in
      input_type_parameters_for_update_or_create fields_dict bag
      = Ok (("defaults", VDict defaults) :: matchKeys)
      ∧ ("defaults" ∉ keys matchKeys)
      ∧ (∀ k, ¬ (k ∈ keys matchKeys ∧ k ∈ keys defaults))
      ∧ (∀ k, k ∈ keys bag ↔ k ∈ keys matchKeys ∨ k ∈ keys defaults))
  ∧ input_type_parameters_for_update_or_create
      [("id", FV None None None [(READ, PTag ALLOW)] (Some [UTag PRIMARY]));
       ("name", FV None None None [(CREATE, PTag REQUIRE); (UPDATE, PTag ALLOW)]
                   (Some [UTag UNIQUE]));
       ("note", FV None None None [] (Some []))]
      [("name", VStr "a"); ("note", VStr "b")]
    = Ok [("defaults", VDict [("note", VStr "b")]); ("name", VStr "a")].
Proof.
  split; [| reflexivity].
  intros fields_dict bag Hres Hclash matchKeys defaults.
  assert (Hno : "defaults" ∉ keys matchKeys).
  { intros [v Hin]%elem_of_keys. apply elem_of_List_filter in Hin as [Hin Hm].
    apply Hclash. split; [apply elem_of_keys; eauto | exact Hm]. }
  split_and!.
  - rewrite partition_filters by done. unfold dict_defaults.
    fold matchKeys. destruct (has "defaults" matchKeys) eqn:Hh; [| done].
    apply has_keys in Hh. done.
  - exact Hno.
  - intros k [[v Hm]%elem_of_keys [v' Hd]%elem_of_keys].
    apply elem_of_List_filter in Hm as [_ Hm].
    apply elem_of_List_filter in Hd as [_ Hd].
    simpl in *. rewrite Hm in Hd. done.
  - intros k. split.
    + intros [v Hin]%elem_of_keys.
      destruct (is_match_key fields_dict k) eqn:Hk.
      * left. apply elem_of_keys. exists v. apply elem_of_List_filter. done.
      * right. apply elem_of_keys. exists v. apply elem_of_List_filter.
        simpl. by rewrite Hk.
    + intros [[v Hin]%elem_of_keys | [v Hin]%elem_of_keys];
        apply elem_of_List_filter in Hin as [Hin _];
        apply elem_of_keys; eauto.
Qed.

Lemma partition_splits_resolved_bag_witness :
  let fields_dict :=
    [("name", FV None None None [] (Some [UTag UNIQUE]));
     ("note", FV None None None [] (Some []))] in
  let bag := [("note", VStr "b"); ("name", VStr "a")] in
  input_type_parameters_for_update_or_create fields_dict bag
  = Ok [("defaults", VDict [("note", VStr "b")]); ("name", VStr "a")].
Proof.
  intros fields_dict bag.
  refine (proj1 (proj1 partition_splits_resolved_bag fields_dict bag _ _)).
  - intros k Hk. unfold resolved.
    apply elem_of_cons in Hk as [-> | Hk]; [simpl; eauto |].
    apply elem_of_cons in Hk as [-> | Hk]; [simpl; eauto |].
    inversion Hk.
  - intros [_ Hm]. vm_compute in Hm. discriminate Hm.
Defined.

(** C5, as stated, fails: every key of the bag belongs to a resolved spec,
    and the partitioner returns no buckets at all. The only key is called
    [defaults] and is tagged unique, so that [dict(defaults=..., **rest)]
    is given the keyword [defaults] twice. *)
Lemma partition_defaults_keyword_clash :
  let fields_dict := [("defaults", FV None None None [] (Some [UTag UNIQUE]))] in
  let bag := [("defaults", VInt 1)] in
  (∀ k, k ∈ keys bag → resolved fields_dict k)
  ∧ input_type_parameters_for_update_or_create fields_dict bag = Raise TypeError
  ∧ ¬ ∃ r, input_type_parameters_for_update_or_create fields_dict bag = Ok r.
Proof.
  intros fields_dict bag. split_and!.
  - intros k Hk. apply elem_of_cons in Hk as [-> | Hk]; [| inversion Hk].
    unfold resolved. simpl. eauto.
  - reflexivity.
  - intros [r Hr]. vm_compute in Hr. discriminate Hr.
Qed.

(** C6. A values bag with a key that has no entry in the field specs makes
    the partitioner fail with UnknownFieldError: no result is returned, so
    the key is not dropped and nothing partial comes out. *)
Theorem partition_unknown_field :
  ∀ (fields_dict : dict FieldValue) (bag : dict pyval) (k : string),
    k ∈ keys bag →
    get k fields_dict = None →
    input_type_parameters_for_update_or_create fields_dict bag
    = Raise UnknownFieldError.
Proof.
  intros fields_dict bag k [v Hin]%elem_of_keys Hnone.
  unfold input_type_parameters_for_update_or_create.
  rewrite (filter_dict_r_raise
             (λ kv, u ← item_path_unique kv.1 fields_dict;
                    Ok (not_func (length_truthy u))) UnknownFieldError);
    [done | |].
  - intros [k' v'] _. simpl. unfold item_path_unique.
    destruct (get k' fields_dict) as [w|]; [| by left].
    destruct (fv_unique w); [right; eauto | by left].
  - exists (k, v). split; [done |]. simpl. unfold item_path_unique.
    by rewrite Hnone.
Qed.

Lemma partition_unknown_field_witness :
  input_type_parameters_for_update_or_create
    [("name", FV None None None [] (Some [UTag UNIQUE]))]
    [("name", VStr "a"); ("note", VStr "b")]
  = Raise UnknownFieldError.
Proof.
  apply (partition_unknown_field _ _ "note").
  - apply elem_of_keys. exists (VStr "b"). right. left.
  - reflexivity.
Defined.

(** ** C7 and C8: reflection and merge *)

Lemma get_app {V} (k : string) (d1 d2 : dict V) :
  get k (d1 ++ d2) = match get k d1 with Some v => Some v | None => get k d2 end.
Proof.
  induction d1 as [|[k' v'] d1 IH]; simpl; [done |].
  by destruct (String.eqb k k').
Qed.

Lemma keys_pick {V} (names : list string) (d : dict V) (k : string) :
  k ∈ keys (pick names d) → k ∈ names ∧ is_Some (get k d).
Proof.
  intros [v Hin]%elem_of_keys. unfold pick in Hin.
  apply list_elem_of_omap in Hin as (x & Hx & Hget).
  destruct (get x d) eqn:Hd; [| done]. injection Hget as -> ->.
  rewrite Hd. eauto.
Qed.

Lemma keys_merge_deep (a b : dict FieldValue) :
  (∀ k, k ∈ keys b → k ∈ keys a) → keys (merge_deep a b) = keys a.
Proof.
  intros Hsub. unfold merge_deep, keys. rewrite fmap_app.
  replace (List.filter (λ kv, negb (has kv.1 a)) b) with (@nil (string * FieldValue)).
  - rewrite app_nil_r, <- list_fmap_compose. apply list_fmap_ext.
    intros i [k v] _. simpl. by destruct (get k b).
  - symmetry. induction b as [|[k v] b IH]; simpl; [done |].
    assert (has k a = true) as ->.
    { apply has_keys, Hsub. unfold keys. simpl. left. }
    simpl. apply IH. intros k' Hk'. apply Hsub. unfold keys. simpl. by right.
Qed.

Lemma get_merge_deep_left (a b : dict FieldValue) (k : string) (v : FieldValue) :
  get k a = Some v → get k b = None → get k (merge_deep a b) = Some v.
Proof.
  intros Ha Hb. unfold merge_deep. rewrite get_app.
  enough (get k (map (λ kv, match get kv.1 b with
                            | Some vb => (kv.1, merge_value kv.2 vb)
                            | None => kv
                            end) a) = Some v) as -> by done.
  induction a as [|[k' v'] a IH]; simpl in *; [done |].
  destruct (String.eqb_spec k k') as [->|Hne].
  - rewrite Hb. simpl. by rewrite String.eqb_refl.
  - destruct (get k' b); simpl;
      (destruct (String.eqb_spec k k'); [done | by apply IH]).
Qed.

Lemma keys_set_item {V} (k k' : string) (v : V) (d : dict V) :
  k ∈ keys (set_item k' v d) → k = k' ∨ k ∈ keys d.
Proof.
  rewrite <- !get_Some_keys. destruct (decide (k = k')) as [->|Hne]; [by left |].
  rewrite get_set_item_ne by done. by right.
Qed.

Lemma keys_from_pairs {V} (pairs : list (string * V)) (k : string) :
  k ∈ keys (from_pairs pairs) → k ∈ pairs.*1.
Proof.
  unfold from_pairs.
  enough (∀ acc : dict V,
             k ∈ keys (fold_left (λ acc kv, set_item kv.1 kv.2 acc) pairs acc) →
             k ∈ pairs.*1 ∨ k ∈ keys acc) as H.
  { intros Hk. destruct (H [] Hk) as [?|Hnil]; [done | inversion Hnil]. }
  induction pairs as [|[k' v'] pairs IH]; intros acc Hk; simpl in *.
  - by right.
  - destruct (IH _ Hk) as [Hin | Hin]; [left; by right |].
    apply keys_set_item in Hin as [-> | Hin]; [left; left | by right].
Qed.

Lemma map_r_Ok {A B} (f : A → result B) (l : list A) (r : list B) :
  map_r f l = Ok r → Forall2 (λ a b, f a = Ok b) l r.
Proof.
  revert r. induction l as [|a l IH]; intros r; simpl.
  - intros [= <-]. constructor.
  - destruct (f a) as [b|e] eqn:Hfa; simpl; [| done].
    destruct (map_r f l) as [rest|e]; simpl; [| done].
    intros [= <-]. constructor; [done | by apply IH].
Qed.

Lemma map_r_total {A B} (f : A → result B) (l : list A) :
  (∀ a, a ∈ l → ∃ b, f a = Ok b) → ∃ r, map_r f l = Ok r.
Proof.
  induction l as [|a l IH]; intros Hf; simpl; [eauto |].
  destruct (Hf a) as [b ->]; [left |]. simpl.
  destruct IH as [r ->]; [intros; apply Hf; by right |]. simpl. eauto.
Qed.

Lemma map_r_ext {A B} (f g : A → result B) (l : list A) :
  (∀ a, a ∈ l → f a = g a) → map_r f l = map_r g l.
Proof.
  induction l as [|a l IH]; intros Hfg; simpl; [done |].
  rewrite (Hfg a) by left. rewrite IH; [done |]. intros; apply Hfg; by right.
Qed.

(** The keys of the reflected metadata are names of model fields that the
    policy names. *)
Lemma parse_django_class_keys model field_dict parsed k :
  parse_django_class model field_dict = Ok parsed →
  k ∈ keys parsed →
  k ∈ map f_name (meta_fields model) ∧ k ∈ keys field_dict.
Proof.
  unfold parse_django_class. set (groups := from_pairs_to_array_values _).
  destruct (map_r _ _) as [pairs|e] eqn:Hmap; simpl; [| done].
  intros [= <-] Hk. apply keys_from_pairs in Hk.
  apply map_r_Ok in Hmap.
  apply list_elem_of_fmap in Hk as ([k' p] & -> & Hin). simpl.
  apply list_elem_of_lookup in Hin as [i Hi].
  destruct (Forall2_lookup_r _ _ _ _ _ Hmap Hi) as (field & Hfield & Hf).
  apply list_elem_of_lookup_2 in Hfield.
  apply elem_of_List_filter in Hfield as [Hfield Hhas].
  destruct (prop (f_name field) field_dict); simpl in Hf; [| done].
  destruct (process_field groups field _); simpl in Hf; [| done].
  injection Hf as <- _. split.
  - change (map f_name (meta_fields model)) with (f_name <$> meta_fields model).
    by apply list_elem_of_fmap_2.
  - by apply has_keys.
Qed.

Lemma django_to_graphene_type_mapped field v :
  is_Some (fv_graphene_type v) ∨ mapped (f_class field) = true →
  ∃ t, django_to_graphene_type field (Some v) = Ok t.
Proof.
  destruct v as [t [g|] f p u]; simpl; [eauto |].
  intros [[? [=]] | Hm]. destruct (f_class field); simpl in *; eauto; done.
Qed.

Lemma merge_with_django_properties_keys graphene_type field_dict r :
  merge_with_django_properties graphene_type field_dict = Ok r →
  keys r = keys field_dict.
Proof.
  unfold merge_with_django_properties.
  destruct (gt_model graphene_type) as [model|]; [| done].
  destruct (parse_django_class model field_dict) as [parsed|e]; simpl; [| done].
  intros [= <-]. apply keys_merge_deep.
  intros k Hk. by apply keys_pick in Hk as [Hk _].
Qed.

Lemma map_r_Raise {A B} (f : A → result B) (l : list A) (e : exn) :
  map_r f l = Raise e → ∃ a, a ∈ l ∧ f a = Raise e.
Proof.
  induction l as [|a l IH]; simpl; [done |].
  destruct (f a) as [b|e'] eqn:Hfa; simpl.
  - destruct (map_r f l) as [rest|e']; simpl; [done |].
    intros [= ->]. destruct IH as (a' & Hin & Ha'); [done |].
    exists a'. split; [by right | done].
  - intros [= ->]. exists a. split; [left | done].
Qed.

(** The reflection and the merge raise nothing but KeyError (a field class
    outside the table) and AttributeError (a type without model). *)
Lemma parse_django_class_Raise model field_dict e :
  parse_django_class model field_dict = Raise e → e = KeyError.
Proof.
  unfold parse_django_class. set (groups := from_pairs_to_array_values _).
  destruct (map_r _ _) as [pairs|e'] eqn:Hmap; simpl; [done |].
  intros [= ->]. apply map_r_Raise in Hmap as (field & _ & Hf).
  unfold prop in Hf. destruct (get (f_name field) field_dict) as [v|]; simpl in Hf;
    [| congruence].
  unfold process_field in Hf.
  destruct (django_to_graphene_type field (Some v)) as [t|e'] eqn:Ht;
    simpl in Hf; [done |].
  injection Hf as ->. unfold django_to_graphene_type in Ht.
  destruct v as [? [?|] ? ? ?]; [done |].
  destruct (f_class field); congruence.
Qed.

Lemma parse_django_class_del_absent model field_dict k :
  k ∉ map f_name (meta_fields model) →
  parse_django_class model field_dict
  = parse_django_class model (del_item k field_dict).
Proof.
  intros Hk. unfold parse_django_class. set (groups := from_pairs_to_array_values _).
  assert (Hget : ∀ field, field ∈ meta_fields model →
                          get (f_name field) (del_item k field_dict)
                          = get (f_name field) field_dict).
  { intros field Hin. apply get_del_item_ne. intros Heq. apply Hk.
    rewrite <- Heq.
    change (map f_name (meta_fields model)) with (f_name <$> meta_fields model).
    by apply list_elem_of_fmap_2. }
  rewrite (filter_ext_in (λ field, has (f_name field) field_dict)
                         (λ field, has (f_name field) (del_item k field_dict))).
  2:{ intros field Hin%list_elem_of_In. unfold has. by rewrite Hget. }
  erewrite map_r_ext; [reflexivity |].
  intros field [Hin _]%elem_of_List_filter. simpl. unfold prop.
  by rewrite Hget.
Qed.

(** C7, as the code has it. A field that the policy names and the model
    does not have is left out of the reflected metadata, which is what it
    would be had the policy not named the field, and the merge hands the
    entry of the policy through unchanged, with or without a type of its
    own; the merge never raises UnknownFieldError. *)
Theorem absent_field_passes_through :
  ∀ (graphene_type : GrapheneType) (model : Model)
    (field_dict : dict FieldValue) (k : string) (v : FieldValue),
    gt_model graphene_type = Some model →
    get k field_dict = Some v →
    k ∉ map f_name (meta_fields model) →
    parse_django_class model field_dict
    = parse_django_class model (del_item k field_dict)
    ∧ (∀ parsed, parse_django_class model field_dict = Ok parsed →
                 get k parsed = None)
    ∧ (∀ r, merge_with_django_properties graphene_type field_dict = Ok r →
            get k r = Some v)
    ∧ merge_with_django_properties graphene_type field_dict
      ≠ Raise UnknownFieldError.
Proof.
  intros graphene_type model field_dict k v Hmodel Hget Hk.
  assert (Hparsed : ∀ parsed, parse_django_class model field_dict = Ok parsed →
                              get k parsed = None).
  { intros parsed Hp. apply get_None_keys. intros Hin.
    by apply (parse_django_class_keys _ _ _ _ Hp) in Hin as [Hin _]. }
  split_and!.
  - by apply parse_django_class_del_absent.
  - exact Hparsed.
  - unfold merge_with_django_properties. rewrite Hmodel.
    destruct (parse_django_class model field_dict) as [parsed|e] eqn:Hp;
      simpl; [| done].
    intros r [= <-]. apply get_merge_deep_left; [done |].
    apply get_None_keys. intros Hin. apply keys_pick in Hin as [_ [w Hw]].
    rewrite (Hparsed parsed eq_refl) in Hw. done.
  - unfold merge_with_django_properties. rewrite Hmodel.
    destruct (parse_django_class model field_dict) as [parsed|e] eqn:Hp;
      simpl; [done |].
    apply parse_django_class_Raise in Hp as ->. done.
Qed.

Lemma absent_field_passes_through_witness :
  let model := mkModel [mkField "id" "id" AutoField true false] [] in
  let WidgetType := mkGrapheneType 1 "WidgetType" (Some model) in
  let ghost := FV None None None [(CREATE, PTag ALLOW)] None in
  let policy := [("id", FV None None None [] None); ("ghost", ghost)] in
  parse_django_class model policy
  = parse_django_class model (del_item "ghost" policy)
  ∧ merge_with_django_properties WidgetType policy ≠ Raise UnknownFieldError.
Proof.
  intros model WidgetType ghost policy.
  destruct (absent_field_passes_through WidgetType model policy "ghost" ghost)
    as (Hparse & _ & _ & Hmerge).
  - reflexivity.
  - reflexivity.
  - intros Hin. apply list_elem_of_In in Hin. simpl in Hin.
    destruct Hin as [[=] | []].
  - split; [exact Hparse | exact Hmerge].
Defined.

(** C7, as stated, fails: the policy names [ghost], the model has no such
    field, the policy gives [ghost] no type, and the reflection and the
    merge both return, the merge with [ghost] in its result. *)
Lemma absent_field_raises_nothing :
  let model := mkModel [mkField "id" "id" AutoField true false] [] in
  let WidgetType := mkGrapheneType 1 "WidgetType" (Some model) in
  let ghost := FV None None None [(CREATE, PTag ALLOW)] None in
  let policy := [("id", FV None None None [] None); ("ghost", ghost)] in
  fv_type ghost = None
  ∧ ("ghost" ∉ map f_name (meta_fields model))
  ∧ parse_django_class model policy
    = Ok [("id", FV (Some (TScalar graphene_Int)) None None []
                    (Some [UTag PRIMARY]))]
  ∧ merge_with_django_properties WidgetType policy
    = Ok [("id", FV (Some (TScalar graphene_Int)) None None []
                    (Some [UTag PRIMARY]));
          ("ghost", ghost)]
  ∧ merge_with_django_properties WidgetType policy ≠ Raise UnknownFieldError.
Proof.
  intros model WidgetType ghost policy. split_and!; try reflexivity; [| done].
  intros Hin. apply list_elem_of_In in Hin. simpl in Hin.
  destruct Hin as [[=] | []].
Qed.

(** C8, as the code has it. Whenever each model field that the policy
    names has a class of the mapping table, or a policy entry with a
    [graphene_type], the merge returns a mapping; and every mapping the
    merge returns has the keys of the policy, each once and in the order of
    the policy, so that no field of the policy is dropped or duplicated and
    no model field outside the policy appears. *)
Theorem merge_keeps_policy_fields :
  (∀ (graphene_type : GrapheneType) (model : Model)
     (field_dict : dict FieldValue),
      gt_model graphene_type = Some model →
      (∀ field v, field ∈ meta_fields model →
                  get (f_name field) field_dict = Some v →
                  is_Some (fv_graphene_type v) ∨ mapped (f_class field) = true) →
      ∃ r, merge_with_django_properties graphene_type field_dict = Ok r)
  ∧ (∀ (graphene_type : GrapheneType) (field_dict r : dict FieldValue),
        merge_with_django_properties graphene_type field_dict = Ok r →
        keys r = keys field_dict
        ∧ (NoDup (keys field_dict) → NoDup (keys r))
        ∧ (∀ k, k ∈ keys field_dict → is_Some (get k r))
        ∧ (∀ model field, gt_model graphene_type = Some model →
                          field ∈ meta_fields model →
                          f_name field ∉ keys field_dict →
                          get (f_name field) r = None)).
Proof.
  split.
  - intros graphene_type model field_dict Hmodel Hsup.
    unfold merge_with_django_properties. rewrite Hmodel.
    enough (∃ parsed, parse_django_class model field_dict = Ok parsed)
      as [parsed ->] by (simpl; eauto).
    unfold parse_django_class. set (groups := from_pairs_to_array_values _).
    destruct (map_r_total
                (λ field,
                   v ← prop (f_name field) field_dict;
                   p ← process_field groups field (Some v);
                   Ok (f_name field, p))
                (List.filter (λ field, has (f_name field) field_dict)
                             (meta_fields model))) as [pairs Hpairs].
    + intros field [Hin Hhas]%elem_of_List_filter.
      unfold prop, has in *.
      destruct (get (f_name field) field_dict) as [v|] eqn:Hv; [| done]. simpl.
      unfold process_field.
      destruct (django_to_graphene_type_mapped field v) as [t ->]; [eauto |].
      simpl. eauto.
    + rewrite Hpairs. simpl. eauto.
  - intros graphene_type field_dict r Hr.
    pose proof (merge_with_django_properties_keys _ _ _ Hr) as Hkeys.
    split_and!.
    + exact Hkeys.
    + by rewrite Hkeys.
    + intros k Hk. apply get_Some_keys. by rewrite Hkeys.
    + intros model field _ _ Hk. apply get_None_keys. by rewrite Hkeys.
Qed.

Lemma merge_keeps_policy_fields_witness :
  let model := mkModel [mkField "id" "id" AutoField true false;
                        mkField "name" "name" CharField false true;
                        mkField "secret" "secret" TextField false false] [] in
  let WidgetType := mkGrapheneType 1 "WidgetType" (Some model) in
  let policy := [("name", FV None None None [(CREATE, PTag REQUIRE)] None);
                 ("id", FV None None None [(CREATE, PTag DENY)] None)] in
  ∃ r, merge_with_django_properties WidgetType policy = Ok r
       ∧ keys r = ["name"; "id"].
Proof.
  intros model WidgetType policy.
  destruct (proj1 merge_keeps_policy_fields WidgetType model policy eq_refl)
    as [r Hr].
  - intros field v Hin _. right.
    apply list_elem_of_In in Hin. simpl in Hin.
    destruct Hin as [<- | [<- | [<- | []]]]; reflexivity.
  - exists r. split; [exact Hr |].
    exact (proj1 (proj2 merge_keeps_policy_fields WidgetType policy r Hr)).
Defined.

(** C8, as stated, fails: the policy names the model field [rank], a
    small-integer field, a class that the table of
    [django_to_graphene_type] does not list, and the merge raises KeyError
    instead of producing a mapping. *)
Lemma merge_unmapped_field_class :
  let model := mkModel [mkField "id" "id" AutoField true false;
                        mkField "rank" "rank" (OtherField "SmallIntegerField")
                                false false] [] in
  let WidgetType := mkGrapheneType 1 "WidgetType" (Some model) in
  let policy := [("id", FV None None None [] None);
                 ("rank", FV None None None [(CREATE, PTag ALLOW)] None)] in
  merge_with_django_properties WidgetType policy = Raise KeyError
  ∧ ¬ ∃ r, merge_with_django_properties WidgetType policy = Ok r.
Proof.
  intros model WidgetType policy. split; [reflexivity |].
  intros [r Hr]. vm_compute in Hr. discriminate Hr.
Qed.

(** ** The registry and the heap only grow *)

#[global] Instance extends_preorder : PreOrder extends.
Proof.
  split.
  - intros s. split; reflexivity.
  - intros s1 s2 s3 [Hc1 Hh1] [Hc2 Hh2]. split; etrans; eassumption.
Qed.

Lemma bind_inv {A B} (m : M A) (k : A → M B) s r s' :
  (m ≫= k) s = (r, s') →
  (∃ a s1, m s = (Ok a, s1) ∧ k a s1 = (r, s'))
  ∨ (∃ e, m s = (Raise e, s') ∧ r = Raise e).
Proof.
  unfold mbind, M_bind. destruct (m s) as [[a|e] s1] eqn:Hm.
  - intros Hk. left. eauto.
  - intros [= <- <-]. right. eauto.
Qed.

Lemma bind_Ok_inv {A B} (m : M A) (k : A → M B) s b s' :
  (m ≫= k) s = (Ok b, s') →
  ∃ a s1, m s = (Ok a, s1) ∧ k a s1 = (Ok b, s').
Proof.
  intros [H | (e & _ & [=])]%bind_inv. exact H.
Qed.

Lemma grows_ret {A} (a : A) : grows (mret a).
Proof. intros s r s' [= <- <-]. reflexivity. Qed.

Lemma grows_lift {A} (x : result A) : grows (lift x).
Proof. intros s r s' [= <- <-]. reflexivity. Qed.

Lemma grows_raise {A} (e : exn) : grows (@raise A e).
Proof. intros s r s' [= <- <-]. reflexivity. Qed.

Lemma grows_bind {A B} (m : M A) (k : A → M B) :
  grows m → (∀ a, grows (k a)) → grows (m ≫= k).
Proof.
  intros Hm Hk s r s' [(a & s1 & H1 & H2) | (e & H1 & _)]%bind_inv.
  - etrans; [eapply Hm | eapply Hk]; eassumption.
  - eapply Hm; eassumption.
Qed.

Lemma grows_new_class c : grows (new_class c).
Proof.
  intros s r s' [= <- <-]. split; simpl; [reflexivity | by apply prefix_app_r].
Qed.

Create HintDb grows.
#[local] Hint Resolve grows_ret grows_lift grows_raise grows_new_class : grows.

(** [m ≫= k] grows when [m] does and [k] does at every value. *)
Ltac grows_bind := apply grows_bind; [auto with grows | intros ?].

Lemma grows_map_dict {A B} (f : A → M B) (d : dict A) :
  (∀ a, grows (f a)) → grows (map_dict f d).
Proof.
  intros Hf. induction d as [|[k a] d IH]; simpl; [auto with grows |].
  do 2 grows_bind. auto with grows.
Qed.

Lemma grows_memoize {A B} (key_of : A * B → result (nat * Crud))
      (f : A → B → M handle) (a : A) (b : B) :
  grows (f a b) → grows (memoize key_of f a b).
Proof.
  intros Hf s r s'. unfold memoize.
  destruct (key_of (a, b)) as [key|e]; [| intros [= <- <-]; reflexivity].
  destruct (cache s !! key) as [h|] eqn:Hkey; [intros [= <- <-]; reflexivity |].
  destruct (f a b s) as [[h|e] s1] eqn:Hfs; intros [= <- <-].
  - destruct (Hf _ _ _ Hfs) as [Hc Hh]. split; simpl; [| done].
    by apply insert_subseteq_r.
  - eapply Hf; eassumption.
Qed.

Section generator_grows.
Variable self : FieldValue → Crud → M handle.
Hypothesis self_grows : ∀ v c, grows (self v c).

#[local] Hint Resolve self_grows : grows.

Lemma grows_instantiate_graphene_type v c :
  grows (instantiate_graphene_type self v c).
Proof.
  unfold instantiate_graphene_type. grows_bind.
  match goal with t : TypeEntry |- _ => destruct t end; [auto with grows .. |].
  grows_bind. auto with grows.
Qed.

#[local] Hint Resolve grows_instantiate_graphene_type : grows.

Lemma grows_input_type_fields fields_dict crud :
  grows (input_type_fields self fields_dict crud).
Proof. unfold input_type_fields. apply grows_map_dict. auto with grows. Qed.

#[local] Hint Resolve grows_input_type_fields : grows.

Lemma grows_input_type_class_body v c :
  grows (input_type_class_body self v c).
Proof. unfold input_type_class_body. do 3 grows_bind. auto with grows. Qed.

Lemma grows_allowed_query_arguments fields_dict :
  grows (allowed_query_arguments self fields_dict).
Proof.
  unfold allowed_query_arguments. apply grows_map_dict. intros v. grows_bind.
  match goal with t : TypeEntry |- _ => destruct t end;
    [auto with grows | grows_bind; auto with grows ..].
Qed.
End generator_grows.

Lemma grows_input_type_class depth v c : grows (input_type_class depth v c).
Proof.
  revert v c. induction depth as [|d IH]; intros v c; simpl;
    apply grows_memoize; [auto with grows |].
  by apply grows_input_type_class_body.
Qed.

Lemma call_extends s s' : call s s' → extends s s'.
Proof.
  intros [depth v c s0 r s0' H | depth fd c s0 r s0' H
          | depth v c s0 r s0' H | depth fd s0 r s0' H].
  - by eapply grows_input_type_class.
  - eapply grows_input_type_fields; [apply grows_input_type_class | done].
  - eapply grows_instantiate_graphene_type; [apply grows_input_type_class | done].
  - eapply grows_allowed_query_arguments; [apply grows_input_type_class | done].
Qed.

Lemma later_extends s s' : later s s' → extends s s'.
Proof.
  induction 1 as [|s s1 s2 _ IH Hcall]; [reflexivity |].
  etrans; [exact IH | by apply call_extends].
Qed.

(** ** C1 and C10: one class per key *)

Lemma input_type_class_unfold depth v c :
  input_type_class depth v c
  = memoize map_args
      (match depth with
       | 0 => λ _ _, raise RecursionError
       | S d => input_type_class_body (input_type_class d)
       end) v c.
Proof. by destruct depth. Qed.


(** A call that returns leaves its key registered with what it returned. *)
Lemma input_type_class_registers depth v c s h s1 :
  input_type_class depth v c s = (Ok h, s1) →
  ∃ key, map_args (v, c) = Ok key ∧ cache s1 !! key = Some h.
Proof.
  rewrite input_type_class_unfold. unfold memoize.
  destruct (map_args (v, c)) as [key|e]; [| done].
  destruct (cache s !! key) as [h0|] eqn:Hc.
  - intros [= -> <-]. eauto.
  - match goal with |- context [?f v c s] => destruct (f v c s) as [[h1|e] s'] end;
      intros [= <- <-]; simpl.
    exists key. by rewrite lookup_insert_eq.
Qed.


Lemma map_dict_returns {A B} (f : A → M B) (d : dict A) :
  (∀ k a, (k, a) ∈ d → ∀ s, ∃ b s', f a s = (Ok b, s')) →
  ∀ s, ∃ r s', map_dict f d s = (Ok r, s').
Proof.
  induction d as [|[k a] d IH]; intros Hf s; simpl.
  - by exists [], s.
  - destruct (Hf k a ltac:(left) s) as (b & s1 & Hb).
    destruct (IH (λ k' a' Hin, Hf k' a' ltac:(by right)) s1) as (r & s2 & Hr).
    exists ((k, b) :: r), s2. unfold mbind, M_bind. by rewrite Hb, Hr.
Qed.

(** With enough depth the generator returns: a generable value gets its
    class, from any state. *)
Lemma input_type_class_returns depth c v :
  generable depth c v → ∀ s, ∃ h s', input_type_class depth v c s = (Ok h, s').
Proof.
  revert v. induction depth as [|d IH]; intros v; [done |].
  intros (g & fields & Hg & Hfields & Hall) s.
  rewrite input_type_class_unfold. unfold memoize, map_args. simpl. rewrite Hg.
  destruct (cache s !! (gt_id g, c)) as [h|]; [eauto |].
  unfold input_type_class_body, mbind, M_bind, lift. rewrite Hg, Hfields.
  destruct (map_dict_returns
              (λ value, instantiate_graphene_type (input_type_class d) value c)
              (filter_dict (λ kv, not_func (prop_eq_or false c DENY kv.2)) fields))
    with (s := s) as (attrs & s1 & Hattrs).
  { intros k w [Hin Hp]%elem_of_List_filter s0. simpl in Hp.
    apply negb_true_iff in Hp. specialize (Hall k w Hin Hp).
    unfold instantiate_graphene_type, mbind, M_bind, lift.
    destruct (fv_type w) as [[sc | n | v']|]; [eauto | eauto | | done].
    destruct (IH v' Hall s0) as (h & s' & ->). eauto. }
  unfold input_type_fields. unfold mbind, M_bind in Hattrs. rewrite Hattrs.
  simpl. eauto.
Qed.

(** The input type of a job for CREATE: the class of the related user is
    built first, inside the call for the job, and both are registered. *)
Example input_type_class_job_create :
  let r := input_type_class 2 job_policy CREATE s_empty in
  r.1 = Ok 1
  ∧ heap r.2
    = [mkClass "UserTypeRelatedCreateInputType"
               [("id", ScalarInstance graphene_Int true)];
       mkClass "JobTypeRelatedCreateInputType"
               [("key", ScalarInstance graphene_String true);
                ("owner", InputField 0 false)]]
  ∧ cache r.2 !! (1, CREATE) = Some 0
  ∧ cache r.2 !! (2, CREATE) = Some 1
  ∧ (input_type_class 1 job_policy CREATE s_empty).1 = Raise RecursionError.
Proof. vm_compute. done. Qed.

Example job_policy_generable : generable 2 CREATE job_policy.
Proof.
  exists JobType. eexists.
  split_and!; [reflexivity | vm_compute; reflexivity |].
  intros k w Hin Hp.
  repeat (apply elem_of_cons in Hin as [[= -> ->] | Hin]).
  all: try done. all: try (by inversion Hin).
  cbn. exists UserType. eexists.
  split_and!; [reflexivity | vm_compute; reflexivity |].
  intros k' w' Hin' _.
  repeat (apply elem_of_cons in Hin' as [[= -> ->] | Hin']).
  all: try done. all: try (by inversion Hin').
Qed.







(** From the empty registry the two values give classes with different
    attributes; which of them the key stands for depends on which call came
    first. *)
Lemma input_type_class_first_call_decides :
  (∃ s1, input_type_class 1 widget_id_only CREATE s_empty = (Ok 0, s1)
         ∧ input_type_class 1 widget_id_name CREATE s1 = (Ok 0, s1)
         ∧ class_attrs <$> heap s1 !! 0
           = Some [("id", ScalarInstance graphene_Int true)])
  ∧ (∃ s1, input_type_class 1 widget_id_name CREATE s_empty = (Ok 0, s1)
           ∧ input_type_class 1 widget_id_only CREATE s1 = (Ok 0, s1)
           ∧ class_attrs <$> heap s1 !! 0
             = Some [("id", ScalarInstance graphene_Int true);
                     ("name", ScalarInstance graphene_String false)]).
Proof.
  split; eexists; split_and!; reflexivity.
Qed.

(** ** C2 and C3: what a generated type holds *)

Lemma map_dict_Ok {A B} (f : A → M B) (d : dict A) s r s' :
  map_dict f d s = (Ok r, s') →
  Forall2 (λ kv ki, ki.1 = kv.1 ∧ ∃ sa sb, f kv.2 sa = (Ok ki.2, sb)) d r.
Proof.
  revert s r. induction d as [|[k a] d IH]; intros s r; simpl.
  - intros [= <- <-]. constructor.
  - intros (b & s1 & Hb & H)%bind_Ok_inv.
    apply bind_Ok_inv in H as (rest & s2 & Hrest & H).
    injection H as <- <-. constructor; [simpl; eauto | by eapply IH].
Qed.

Lemma Forall2_keys {A B} (R : string * A → string * B → Prop)
      (d : dict A) (r : dict B) :
  Forall2 (λ kv ki, ki.1 = kv.1 ∧ R kv ki) d r → keys r = keys d.
Proof.
  unfold keys. induction 1 as [|kv ki d r [Hk _] _ IH]; [done |].
  by rewrite !fmap_cons, Hk, IH.
Qed.

Lemma Forall2_get {A B} (R : string * A → string * B → Prop)
      (d : dict A) (r : dict B) (k : string) (a : A) :
  Forall2 (λ kv ki, ki.1 = kv.1 ∧ R kv ki) d r →
  get k d = Some a →
  ∃ b, get k r = Some b ∧ R (k, a) (k, b).
Proof.
  induction 1 as [|[k1 a1] [k2 b2] d r [Hk HR] _ IH]; simpl in *; [done |].
  subst k2. destruct (String.eqb_spec k k1) as [->|Hne].
  - intros [= ->]. eauto.
  - exact IH.
Qed.

Lemma get_filter_Some {V} (p : string * V → bool) (d : dict V) k v :
  get k d = Some v → p (k, v) = true → get k (List.filter p d) = Some v.
Proof.
  intros Hget Hp. induction d as [|[k' v'] d IH]; simpl in *; [done |].
  destruct (String.eqb_spec k k') as [->|Hne].
  - injection Hget as ->. rewrite Hp. simpl. by rewrite String.eqb_refl.
  - destruct (p (k', v')); simpl; [| by apply IH].
    destruct (String.eqb_spec k k'); [done | by apply IH].
Qed.

Lemma existsb_eqb_elem_of (tag : string) (ts : list string) :
  existsb (String.eqb tag) ts = true ↔ tag ∈ ts.
Proof.
  rewrite existsb_exists, list_elem_of_In. split.
  - intros (x & Hin & Heq%String.eqb_eq). by subst.
  - intros Hin. exists tag. split; [done | apply String.eqb_refl].
Qed.

Lemma prop_eq_or_in_or_marks (c : Crud) (tag : string) (v : FieldValue) :
  prop_eq_or_in_or false c tag v = true ↔ marks c tag v.
Proof.
  unfold prop_eq_or_in_or, marks.
  destruct (perm c (fv_perms v)) as [[t|ts]|]; [| | done].
  - apply String.eqb_eq.
  - apply existsb_eqb_elem_of.
Qed.

Lemma instantiate_graphene_type_required self v c s inst s' :
  instantiate_graphene_type self v c s = (Ok inst, s') →
  required inst = prop_eq_or_in_or false c REQUIRE v.
Proof.
  unfold instantiate_graphene_type.
  intros (t & s1 & Ht & H)%bind_Ok_inv. destruct t as [sc | n | v'].
  - by injection H as <- _.
  - by injection H as <- _.
  - apply bind_Ok_inv in H as (h & s2 & _ & H). by injection H as <- _.
Qed.

(** The keys of the attributes that [input_type_fields] returns are the
    keys of the fields whose entry for the operation is not the tag DENY. *)
Lemma input_type_fields_keys self fields_dict c s attrs s' :
  input_type_fields self fields_dict (Some c) s = (Ok attrs, s') →
  keys attrs
  = keys (List.filter (λ kv, negb (prop_eq_or false c DENY kv.2)) fields_dict).
Proof.
  unfold input_type_fields. intros H%map_dict_Ok.
  by apply Forall2_keys in H.
Qed.

(** The keys of the arguments that [allowed_query_arguments] returns are
    the keys of the fields whose READ entry neither is nor holds DENY. *)
Lemma allowed_query_arguments_keys self fields_dict s args s' :
  allowed_query_arguments self fields_dict s = (Ok args, s') →
  keys args
  = keys (List.filter (λ kv, negb (prop_eq_or_in READ DENY kv.2)) fields_dict).
Proof.
  unfold allowed_query_arguments. intros H%map_dict_Ok.
  by apply Forall2_keys in H.
Qed.

(** A field whose entry for the operation is the one tag DENY is in neither
    result. *)
Lemma deny_tag_excluded self fields_dict c s s' k :
  (∀ v, (k, v) ∈ fields_dict → perm c (fv_perms v) = Some (PTag DENY)) →
  (∀ attrs, input_type_fields self fields_dict (Some c) s = (Ok attrs, s') →
            k ∉ keys attrs)
  ∧ (c = READ →
     ∀ args, allowed_query_arguments self fields_dict s = (Ok args, s') →
             k ∉ keys args).
Proof.
  intros Hdeny. split.
  - intros attrs H. rewrite (input_type_fields_keys _ _ _ _ _ _ H).
    intros [v [Hin Hp]%elem_of_List_filter]%elem_of_keys.
    unfold prop_eq_or in Hp. simpl in Hp. by rewrite (Hdeny v Hin) in Hp.
  - intros -> args H. rewrite (allowed_query_arguments_keys _ _ _ _ _ H).
    intros [v [Hin Hp]%elem_of_List_filter]%elem_of_keys.
    unfold prop_eq_or_in, prop_eq_or_in_or in Hp. simpl in Hp.
    by rewrite (Hdeny v Hin) in Hp.
Qed.

(** C2 at the input where the code parts from it. The policy marks UPDATE
    and READ on [name] with the list [DENY, UNIQUE]. [input_type_fields]
    tests the entry with [prop_eq_or], which a list never passes, and keeps
    [name] in the type generated for UPDATE; [allowed_query_arguments] tests
    it with [prop_eq_or_in] and leaves [name] out of the read arguments. *)
Theorem input_type_fields_keeps_deny_in_list :
  let name := FV (Some (TScalar graphene_String)) None None
                 [(UPDATE, PList [DENY; UNIQUE]); (READ, PList [DENY; UNIQUE])]
                 None in
  marks UPDATE DENY name
  ∧ marks READ DENY name
  ∧ ∀ (self : FieldValue → Crud → M handle) (s : State),
      input_type_fields self [("name", name)] (Some UPDATE) s
      = (Ok [("name", ScalarInstance graphene_String false)], s)
      ∧ allowed_query_arguments self [("name", name)] s = (Ok [], s).
Proof.
  intros name. split_and!.
  - unfold marks. simpl. left.
  - unfold marks. simpl. left.
  - intros self s. split; reflexivity.
Qed.

(** C3. An instance made by [instantiate_graphene_type] has [required]
    set exactly when the entry of the field for the operation is REQUIRE or
    a list with REQUIRE in it. So every attribute of a type that
    [input_type_fields] returns comes from a field of the policy with the
    same key and is required exactly when that field is marked so; and a
    field without entry for the operation is in the type, not required. *)
Theorem required_iff_marked_require :
  (∀ (self : FieldValue → Crud → M handle) (v : FieldValue) (c : Crud)
     (s s' : State) (inst : FieldInstance),
      instantiate_graphene_type self v c s = (Ok inst, s') →
      (required inst = true ↔ marks c REQUIRE v))
  ∧ (∀ (self : FieldValue → Crud → M handle) (fields_dict : dict FieldValue)
       (c : Crud) (s s' : State) (attrs : dict FieldInstance),
        input_type_fields self fields_dict (Some c) s = (Ok attrs, s') →
        (∀ k inst, (k, inst) ∈ attrs →
                   ∃ v, (k, v) ∈ fields_dict
                        ∧ (required inst = true ↔ marks c REQUIRE v))
        ∧ (∀ k v, get k fields_dict = Some v →
                  perm c (fv_perms v) = None →
                  ∃ inst, get k attrs = Some inst ∧ required inst = false)).
Proof.
  split.
  - intros self v c s s' inst H.
    rewrite (instantiate_graphene_type_required _ _ _ _ _ _ H).
    apply prop_eq_or_in_or_marks.
  - intros self fields_dict c s s' attrs H. unfold input_type_fields in H.
    apply map_dict_Ok in H. split.
    + intros k inst [i Hi]%list_elem_of_lookup.
      destruct (Forall2_lookup_r _ _ _ _ _ H Hi)
        as ([k' v] & Hv & Hk & sa & sb & Hinst).
      simpl in *. subst k'. exists v. split.
      * apply list_elem_of_lookup_2 in Hv.
        by apply elem_of_List_filter in Hv as [Hv _].
      * rewrite (instantiate_graphene_type_required _ _ _ _ _ _ Hinst).
        apply prop_eq_or_in_or_marks.
    + intros k v Hget Hperm.
      destruct (Forall2_get _ _ _ k v H) as (inst & Hinst & sa & sb & Hi).
      { apply get_filter_Some; [done |]. simpl.
        unfold prop_eq_or. by rewrite Hperm. }
      exists inst. split; [done |]. simpl in Hi.
      rewrite (instantiate_graphene_type_required _ _ _ _ _ _ Hi).
      unfold prop_eq_or_in_or. by rewrite Hperm.
Qed.

Lemma required_iff_marked_require_witness :
  let fields_dict :=
    [("id", FV (Some (TScalar graphene_Int)) None None
               [(CREATE, PTag DENY); (UPDATE, PList [REQUIRE; UNIQUE])] None);
     ("note", FV (Some (TScalar graphene_String)) None None
                 [(CREATE, PTag ALLOW)] None)] in
  let attrs := [("id", ScalarInstance graphene_Int true);
                ("note", ScalarInstance graphene_String false)] in
  (∃ v, ("id", v) ∈ fields_dict
        ∧ (required (ScalarInstance graphene_Int true) = true
           ↔ marks UPDATE REQUIRE v))
  ∧ ∃ inst, get "note" attrs = Some inst ∧ required inst = false.
Proof.
  intros fields_dict attrs.
  destruct (proj2 required_iff_marked_require (input_type_class 0) fields_dict
                  UPDATE s_empty s_empty attrs eq_refl) as [Hreq Hopt].
  split.
  - apply Hreq. left.
  - apply (Hopt "note" (FV (Some (TScalar graphene_String)) None None
                           [(CREATE, PTag ALLOW)] None)); reflexivity.
Defined.

(** ** C9: the read query for [widget] *)

(** C9. The read query named [widget] over field specs for exactly [id]
    and [name] (neither with fields of its own), built with no variable
    definitions and no field overrides, hands the client one document: the
    operation, with no variable declarations, then the root field [widget],
    with no argument list, then the selection of [id] and [name] and nothing
    else. *)
Theorem graphql_query_widget_document :
  ∀ (K A : Type) (client_execute : string → K → A) (kwargs : K)
    (id name : FieldValue),
    fv_fields id = None →
    fv_fields name = None →
    let document :=
      "query someMadeUpString { " +:+ nl
      +:+ spaces 16 +:+ "widget {" +:+ nl
      +:+ spaces 20 +:+ "id" +:+ nl +:+ "name" +:+ nl
      +:+ spaces 16 +:+ "}" +:+ nl
      +:+ spaces 12 +:+ "}" in
    graphql_query "widget" [("id", id); ("name", name)] client_execute [] []
                  kwargs
    = client_execute document kwargs
    ∧ words document
      = ["query"; "someMadeUpString"; "{"; "widget"; "{"; "id"; "name"; "}"; "}"].
Proof.
  intros K A client_execute kwargs [t1 g1 f1 p1 u1] [t2 g2 f2 p2 u2] H1 H2.
  simpl in H1, H2. subst f1 f2. split; reflexivity.
Qed.

Lemma graphql_query_widget_document_witness :
  words (graphql_query "widget"
           [("id", FV (Some (TScalar graphene_Int)) None None
                      [(READ, PTag ALLOW)] (Some [UTag PRIMARY]));
            ("name", FV (Some (TScalar graphene_String)) None None
                        [(CREATE, PTag REQUIRE)] (Some [UTag UNIQUE]))]
           (λ document (_ : unit), document) [] [] tt)
  = ["query"; "someMadeUpString"; "{"; "widget"; "{"; "id"; "name"; "}"; "}"].
Proof.
  destruct (graphql_query_widget_document unit string
              (λ document _, document) tt
              (FV (Some (TScalar graphene_Int)) None None
                  [(READ, PTag ALLOW)] (Some [UTag PRIMARY]))
              (FV (Some (TScalar graphene_String)) None None
                  [(CREATE, PTag REQUIRE)] (Some [UTag UNIQUE]))
              eq_refl eq_refl) as [Hdoc Hwords].
  rewrite Hdoc. exact Hwords.
Defined.

(** * Further properties of schema_helpers.py *)

(** ** Reflection: [django_to_graphene_type], [process_field],
    [parse_django_class] *)

Lemma get_Some_elem_of {V} (k : string) (v : V) (d : dict V) :
  get k d = Some v → (k, v) ∈ d.
Proof.
  induction d as [|[k' v'] d IH]; simpl; [done |].
  destruct (String.eqb_spec k k') as [->|Hne].
  - intros [= ->]. left.
  - intros H. right. by apply IH.
Qed.

Lemma elem_of_set_item {V} (k k' : string) (v v' : V) (d : dict V) :
  (k, v) ∈ set_item k' v' d → (k, v) = (k', v') ∨ (k, v) ∈ d.
Proof.
  induction d as [|[k0 v0] d IH]; simpl.
  - intros [->|H]%elem_of_cons; [by left | inversion H].
  - destruct (String.eqb k' k0).
    + intros [->|H]%elem_of_cons; [by left | right; by right].
    + intros [->|H]%elem_of_cons; [right; left |].
      destruct (IH H) as [?|?]; [by left | right; by right].
Qed.

Lemma elem_of_from_pairs {V} (pairs : list (string * V)) (k : string) (v : V) :
  (k, v) ∈ from_pairs pairs → (k, v) ∈ pairs.
Proof.
  unfold from_pairs.
  enough (∀ acc : dict V,
             (k, v) ∈ fold_left (λ acc kv, set_item kv.1 kv.2 acc) pairs acc →
             (k, v) ∈ pairs ∨ (k, v) ∈ acc) as H.
  { intros Hin. destruct (H [] Hin) as [?|Hnil]; [done | inversion Hnil]. }
  induction pairs as [|[k' v'] pairs IH]; intros acc Hin; simpl in *.
  - by right.
  - destruct (IH _ Hin) as [?|Hacc]; [left; by right |].
    apply elem_of_set_item in Hacc as [->|?]; [left; left | by right].
Qed.

Lemma set_item_fresh {V} (k : string) (v : V) (d : dict V) :
  k ∉ keys d → set_item k v d = d ++ [(k, v)].
Proof.
  unfold keys. induction d as [|[k' v'] d IH]; simpl; [done |].
  intros Hk. destruct (String.eqb_spec k k') as [->|Hne].
  - exfalso. apply Hk. left.
  - rewrite IH; [done |]. intros Hin. apply Hk. by right.
Qed.

(** Pairs with distinct keys make the dictionary that lists them. *)
Lemma from_pairs_NoDup {V} (pairs : list (string * V)) :
  NoDup pairs.*1 → from_pairs pairs = pairs.
Proof.
  unfold from_pairs.
  enough (∀ acc : dict V,
             NoDup (acc.*1 ++ pairs.*1) →
             fold_left (λ acc kv, set_item kv.1 kv.2 acc) pairs acc
             = acc ++ pairs) as H.
  { intros Hnd. by apply (H []). }
  induction pairs as [|[k v] pairs IH]; intros acc Hnd; simpl.
  - by rewrite app_nil_r.
  - rewrite fmap_cons in Hnd. simpl in Hnd.
    rewrite set_item_fresh.
    + rewrite IH; [by rewrite <- app_assoc |].
      rewrite fmap_app, <- app_assoc. done.
    + apply NoDup_app in Hnd as (_ & Hdisj & _). intros Hin.
      apply (Hdisj k Hin). left.
Qed.

Lemma get_add_array_value {V} (k k' : string) (v : V) (d : dict (list V)) :
  is_Some (get k (add_array_value k' v d)) ↔ k = k' ∨ is_Some (get k d).
Proof.
  induction d as [|[k0 vs] d IH]; simpl.
  - destruct (String.eqb_spec k k'); split; eauto.
    intros [?|[? [=]]]. done.
  - destruct (String.eqb_spec k' k0) as [->|Hk0]; simpl.
    + destruct (String.eqb_spec k k0); split; eauto. intros [?|?]; done.
    + destruct (String.eqb_spec k k0) as [->|Hne]; [split; eauto |].
      exact IH.
Qed.

Lemma get_from_pairs_to_array_values {V} (pairs : list (string * V)) (k : string) :
  is_Some (get k (from_pairs_to_array_values pairs)) ↔ k ∈ pairs.*1.
Proof.
  unfold from_pairs_to_array_values.
  enough (∀ acc : dict (list V),
             is_Some (get k (fold_left (λ acc kv, add_array_value kv.1 kv.2 acc)
                                       pairs acc))
             ↔ k ∈ pairs.*1 ∨ is_Some (get k acc)) as H.
  { rewrite H. simpl. split; [intros [?|[? [=]]]; done | by left]. }
  induction pairs as [|[k' v'] pairs IH]; intros acc; simpl.
  - split; [by right | intros [H|?]; [inversion H | done]].
  - rewrite IH, get_add_array_value, elem_of_cons. tauto.
Qed.

(** An attribute has an entry in [field_to_unique_field_groups] exactly when
    some unique-together group of the model lists it. *)
Lemma field_to_unique_field_groups_Some model a :
  is_Some (get a (field_to_unique_field_groups model))
  ↔ ∃ g, g ∈ meta_unique_together model ∧ a ∈ g.
Proof.
  unfold field_to_unique_field_groups.
  rewrite get_from_pairs_to_array_values, list_elem_of_fmap. split.
  - intros ([a' j] & -> & Hin). apply list_elem_of_In, in_concat in Hin.
    destruct Hin as (l & Hl & Hin). apply in_map_iff in Hl as (g & <- & Hg).
    apply in_map_iff in Hin as (a0 & [= <- _] & Ha0).
    exists g. by rewrite !list_elem_of_In.
  - intros (g & Hg & Ha). exists (a, String.concat "," g). split; [done |].
    apply list_elem_of_In, in_concat.
    exists (map (λ attrname, (attrname, String.concat "," g)) g). split.
    + apply in_map_iff. exists g. by rewrite <- list_elem_of_In.
    + apply in_map_iff. exists a. by rewrite <- list_elem_of_In.
Qed.

Lemma parse_django_class_groups model field_dict :
  parse_django_class model field_dict
  = (pairs ← map_r
       (λ field,
          v ← prop (f_name field) field_dict;
          p ← process_field (field_to_unique_field_groups model) field (Some v);
          Ok (f_name field, p))
       (List.filter (λ field, has (f_name field) field_dict) (meta_fields model));
     Ok (from_pairs pairs)).
Proof. reflexivity. Qed.

(** What [parse_django_class] holds for a key comes from a model field of
    that name that the policy names, through [process_field]. *)
Lemma parse_django_class_entry model field_dict parsed k p :
  parse_django_class model field_dict = Ok parsed →
  (k, p) ∈ parsed →
  ∃ field v,
    field ∈ meta_fields model
    ∧ f_name field = k
    ∧ get k field_dict = Some v
    ∧ process_field (field_to_unique_field_groups model) field (Some v) = Ok p.
Proof.
  rewrite parse_django_class_groups.
  destruct (map_r _ _) as [pairs|e] eqn:Hmap; simpl; [| done].
  intros [= <-] Hin%elem_of_from_pairs.
  apply map_r_Ok in Hmap. apply list_elem_of_lookup in Hin as [i Hi].
  destruct (Forall2_lookup_r _ _ _ _ _ Hmap Hi) as (field & Hfield & Hf).
  apply list_elem_of_lookup_2, elem_of_List_filter in Hfield as [Hfield _].
  unfold prop in Hf.
  destruct (get (f_name field) field_dict) as [v|] eqn:Hv; simpl in Hf; [| done].
  destruct (process_field _ field (Some v)) as [p'|e] eqn:Hp; simpl in Hf; [| done].
  injection Hf as <- <-. by exists field, v.
Qed.

(** X2. The uniqueness tags that [parse_django_class] gives a field are not
    empty exactly when the model field is the primary key, or is unique, or
    has its attribute name in some unique-together group of the model. *)
Theorem parse_django_class_unique_tags :
  ∀ (model : Model) (field_dict parsed : dict FieldValue)
    (k : string) (p : FieldValue),
    parse_django_class model field_dict = Ok parsed →
    (k, p) ∈ parsed →
    ∃ field u,
      field ∈ meta_fields model
      ∧ f_name field = k
      ∧ fv_unique p = Some u
      ∧ (u ≠ [] ↔ f_primary_key field = true
                   ∨ f_unique field = true
                   ∨ ∃ g, g ∈ meta_unique_together model ∧ f_attname field ∈ g).
Proof.
  intros model field_dict parsed k p Hparse Hin.
  destruct (parse_django_class_entry _ _ _ _ _ Hparse Hin)
    as (field & v & Hfield & Hname & _ & Hp).
  unfold process_field in Hp.
  destruct (django_to_graphene_type field (Some v)); simpl in Hp; [| done].
  injection Hp as <-. eexists field, _. split_and!; [done | done | reflexivity |].
  rewrite <- field_to_unique_field_groups_Some.
  destruct (f_primary_key field), (f_unique field),
    (get (f_attname field) (field_to_unique_field_groups model)); simpl;
    split; intros H;
    first [ done | by eauto | by destruct H
          | by destruct H as [? | [? | [? ?]]] ].
Qed.

Lemma parse_django_class_unique_tags_witness :
  ∃ field u,
    field ∈ meta_fields (default (mkModel [] []) (gt_model JobType))
    ∧ f_name field = "key"
    ∧ Some [UGroups ["key,owner"]] = Some u
    ∧ (u ≠ [] ↔ f_primary_key field = true
                 ∨ f_unique field = true
                 ∨ ∃ g, g ∈ [["key"; "owner"]] ∧ f_attname field ∈ g).
Proof.
  refine (parse_django_class_unique_tags
            (default (mkModel [] []) (gt_model JobType))
            (default [] (fv_fields job_policy)) _ "key"
            (FV (Some (TScalar graphene_String)) None None []
                (Some [UGroups ["key,owner"]])) _ _).
  - vm_compute. reflexivity.
  - right. left.
Defined.

Lemma map_filter_comm {A B} (f : A → B) (p : B → bool) (l : list A) :
  map f (List.filter (λ a, p (f a)) l) = List.filter p (map f l).
Proof.
  induction l as [|a l IH]; simpl; [done |].
  destruct (p (f a)); simpl; by rewrite IH.
Qed.

(** X3. For a model whose field names are distinct, the reflected metadata
    has one entry for each model field that the policy names, in the order
    of the model, and no other; each entry carries a type and uniqueness
    tags and nothing else (no permission, no [graphene_type], no
    [fields]). *)
Theorem parse_django_class_shape :
  ∀ (model : Model) (field_dict parsed : dict FieldValue),
    NoDup (map f_name (meta_fields model)) →
    parse_django_class model field_dict = Ok parsed →
    keys parsed
    = List.filter (λ n, has n field_dict) (map f_name (meta_fields model))
    ∧ ∀ k p, (k, p) ∈ parsed →
             is_Some (fv_type p) ∧ is_Some (fv_unique p)
             ∧ fv_perms p = [] ∧ fv_graphene_type p = None
             ∧ fv_fields p = None.
Proof.
  intros model field_dict parsed Hnd Hparse. split.
  - revert Hparse. rewrite parse_django_class_groups.
    destruct (map_r _ _) as [pairs|e] eqn:Hmap; simpl; [| done].
    intros [= <-]. apply map_r_Ok in Hmap.
    assert (Hkeys : pairs.*1
                    = map f_name (List.filter (λ field, has (f_name field) field_dict)
                                              (meta_fields model))).
    { induction Hmap as [|field [k p] l r Hf _ IH]; [done |].
      rewrite fmap_cons. simpl. rewrite IH. f_equal.
      destruct (prop (f_name field) field_dict); simpl in Hf; [| done].
      destruct (process_field _ field _); simpl in Hf; [| done].
      by injection Hf as <- _. }
    rewrite (map_filter_comm f_name (λ n, has n field_dict)) in Hkeys.
    rewrite from_pairs_NoDup; [exact Hkeys |].
    rewrite Hkeys. by apply NoDup_ListNoDup, List.NoDup_filter, NoDup_ListNoDup.
  - intros k p Hin.
    destruct (parse_django_class_entry _ _ _ _ _ Hparse Hin)
      as (field & v & _ & _ & _ & Hp).
    unfold process_field in Hp.
    destruct (django_to_graphene_type field (Some v)); simpl in Hp; [| done].
    injection Hp as <-. simpl. eauto.
Qed.

Lemma parse_django_class_shape_witness :
  keys [("id", FV (Some (TScalar graphene_Int)) None None []
                  (Some [UTag PRIMARY]))]
  = List.filter (λ n, has n [("username", FV None None None [] None);
                             ("id", FV None None None [] None);
                             ("ghost", FV None None None [] None)])
                ["id"; "name"].
Proof.
  refine (proj1 (parse_django_class_shape
                   (mkModel [mkField "id" "id" AutoField true false;
                             mkField "name" "name" CharField false false] [])
                   [("username", FV None None None [] None);
                    ("id", FV None None None [] None);
                    ("ghost", FV None None None [] None)] _ _ _)).
  - simpl. compute_done.
  - reflexivity.
Defined.

Lemma get_pick {V} (names : list string) (d : dict V) (k : string) :
  k ∈ names → get k (pick names d) = get k d.
Proof.
  unfold pick. induction names as [|n names IH]; intros Hin; [inversion Hin |].
  simpl. destruct (decide (k = n)) as [->|Hne].
  - destruct (get n d) as [v|] eqn:Hn; simpl.
    + by rewrite String.eqb_refl.
    + apply get_None_keys. intros Hk.
      apply (keys_pick names d n) in Hk as [_ [w Hw]]. congruence.
  - apply elem_of_cons in Hin as [?|Hin]; [done |].
    destruct (get n d) as [v|]; simpl; [| by apply IH].
    destruct (String.eqb_spec k n); [done | by apply IH].
Qed.

Lemma get_pick_Some {V} (names : list string) (d : dict V) (k : string) (v : V) :
  get k (pick names d) = Some v → get k d = Some v.
Proof.
  intros H. assert (Hk : k ∈ keys (pick names d)).
  { apply get_Some_keys. eauto. }
  apply keys_pick in Hk as [Hk _]. by rewrite get_pick in H.
Qed.

Lemma get_merge_deep (a b : dict FieldValue) (k : string) (v : FieldValue) :
  get k a = Some v →
  get k (merge_deep a b)
  = Some (match get k b with Some vb => merge_value v vb | None => v end).
Proof.
  intros Ha. unfold merge_deep. rewrite get_app.
  enough (get k (map (λ kv, match get kv.1 b with
                            | Some vb => (kv.1, merge_value kv.2 vb)
                            | None => kv
                            end) a)
          = Some (match get k b with Some vb => merge_value v vb | None => v end))
    as -> by done.
  induction a as [|[k' v'] a IH]; simpl in *; [done |].
  destruct (String.eqb_spec k k') as [->|Hne].
  - injection Ha as ->. destruct (get k' b); simpl; by rewrite String.eqb_refl.
  - destruct (get k' b); simpl;
      (destruct (String.eqb_spec k k'); [done | by apply IH]).
Qed.

Lemma filter_all {A} (p : A → bool) (l : list A) :
  (∀ a, p a = true) → List.filter p l = l.
Proof.
  intros Hp. induction l as [|a l IH]; simpl; [done |]. by rewrite Hp, IH.
Qed.

(** What the merge holds for a field of the policy: the entry of the
    policy, merged with the reflected entry when the model has the field. *)
Lemma merge_with_django_properties_entry graphene_type field_dict r k v :
  merge_with_django_properties graphene_type field_dict = Ok r →
  get k field_dict = Some v →
  ∃ model parsed,
    gt_model graphene_type = Some model
    ∧ parse_django_class model field_dict = Ok parsed
    ∧ get k r = Some (match get k parsed with
                      | Some vb => merge_value v vb
                      | None => v
                      end).
Proof.
  unfold merge_with_django_properties.
  destruct (gt_model graphene_type) as [model|]; [| done].
  destruct (parse_django_class model field_dict) as [parsed|e] eqn:Hp;
    simpl; [| done].
  intros [= <-] Hv. exists model, parsed. split_and!; [done | done |].
  rewrite (get_merge_deep _ _ _ _ Hv), get_pick; [done |].
  apply get_Some_keys. eauto.
Qed.

(** X4. The merge leaves the policy's part of every entry as the policy
    wrote it: the permissions of each CRUD operation, the [graphene_type]
    and the nested [fields] of a merged entry are those of the policy
    entry. *)
Theorem merge_keeps_policy_permissions :
  ∀ (graphene_type : GrapheneType) (field_dict r : dict FieldValue)
    (k : string) (v : FieldValue),
    merge_with_django_properties graphene_type field_dict = Ok r →
    get k field_dict = Some v →
    ∃ v', get k r = Some v'
          ∧ fv_perms v' = fv_perms v
          ∧ fv_graphene_type v' = fv_graphene_type v
          ∧ fv_fields v' = fv_fields v.
Proof.
  intros graphene_type field_dict r k v Hr Hv.
  destruct (merge_with_django_properties_entry _ _ _ _ _ Hr Hv)
    as (model & parsed & Hmodel & Hparse & ->).
  eexists. split; [reflexivity |].
  destruct (get k parsed) as [vb|] eqn:Hvb; [| done].
  apply get_Some_elem_of in Hvb.
  destruct (parse_django_class_entry _ _ _ _ _ Hparse Hvb)
    as (field & w & _ & _ & _ & Hp).
  unfold process_field in Hp.
  destruct (django_to_graphene_type field (Some w)); simpl in Hp; [| done].
  injection Hp as <-. simpl. rewrite app_nil_r, filter_all; done.
Qed.

Lemma merge_keeps_policy_permissions_witness :
  ∃ v', get "id" (default [] (match merge_with_django_properties JobType
                                      (default [] (fv_fields job_policy)) with
                              | Ok r => Some r
                              | Raise _ => None
                              end)) = Some v'
        ∧ fv_perms v' = [(CREATE, PTag DENY); (UPDATE, PList [REQUIRE])]
        ∧ fv_graphene_type v' = None
        ∧ fv_fields v' = None.
Proof.
  refine (merge_keeps_policy_permissions JobType
            (default [] (fv_fields job_policy)) _ "id"
            (FV None None None
                [(CREATE, PTag DENY); (UPDATE, PList [REQUIRE])] None) _ _).
  - vm_compute. reflexivity.
  - reflexivity.
Defined.

Lemma get_set_item_Some {V} (k k' : string) (v : V) (d : dict V) :
  is_Some (get k (set_item k' v d)) ↔ k = k' ∨ is_Some (get k d).
Proof.
  destruct (decide (k = k')) as [->|Hne].
  - split; [by left | intros _].
    induction d as [|[k0 v0] d IH]; simpl.
    + rewrite String.eqb_refl. eauto.
    + destruct (String.eqb_spec k' k0) as [->|Hk0]; simpl.
      * rewrite String.eqb_refl. eauto.
      * destruct (String.eqb_spec k' k0); [done | exact IH].
  - rewrite get_set_item_ne by done. split; [by right | by intros [?|?]].
Qed.

Lemma keys_from_pairs_2 {V} (pairs : list (string * V)) (k : string) :
  k ∈ pairs.*1 → is_Some (get k (from_pairs pairs)).
Proof.
  unfold from_pairs.
  enough (∀ acc : dict V,
             k ∈ pairs.*1 ∨ is_Some (get k acc) →
             is_Some (get k (fold_left (λ acc kv, set_item kv.1 kv.2 acc)
                                       pairs acc))) as H.
  { intros Hin. apply H. by left. }
  induction pairs as [|[k' v'] pairs IH]; intros acc.
  - simpl. intros [Hin|?]; [inversion Hin | done].
  - rewrite fmap_cons, elem_of_cons. simpl. intros Hk. apply IH.
    rewrite get_set_item_Some. tauto.
Qed.

(** A model field that the policy names has its entry in the reflected
    metadata. *)
Lemma parse_django_class_has model field_dict parsed k :
  parse_django_class model field_dict = Ok parsed →
  k ∈ keys field_dict →
  k ∈ map f_name (meta_fields model) →
  is_Some (get k parsed).
Proof.
  rewrite parse_django_class_groups.
  destruct (map_r _ _) as [pairs|e] eqn:Hmap; simpl; [| done].
  intros [= <-] Hpol Hmod. apply keys_from_pairs_2.
  apply list_elem_of_In, in_map_iff in Hmod as (field & <- & Hfield).
  apply map_r_Ok in Hmap.
  assert (Hin : field ∈ List.filter (λ field, has (f_name field) field_dict)
                                    (meta_fields model)).
  { apply elem_of_List_filter. split; [by apply list_elem_of_In |].
    by apply has_keys. }
  apply list_elem_of_lookup in Hin as [i Hi].
  destruct (Forall2_lookup_l _ _ _ _ _ Hmap Hi) as ([k p] & Hp & Hf).
  apply list_elem_of_lookup_2 in Hp.
  destruct (prop (f_name field) field_dict); simpl in Hf; [| done].
  destruct (process_field _ field _); simpl in Hf; [| done].
  injection Hf as <- <-. apply list_elem_of_fmap. by exists (f_name field, a0).
Qed.

(** X5. The merge feeds the partitioner: with the merged field dict, a
    values bag whose keys are model fields named in the policy, none of them
    called [defaults], is always partitioned, never refused; the entry
    [defaults] gets the values of the fields without uniqueness tag and the
    values of the tagged fields follow at top level. *)
Theorem merged_fields_partition :
  ∀ (graphene_type : GrapheneType) (model : Model)
    (field_dict r : dict FieldValue) (bag : dict pyval),
    gt_model graphene_type = Some model →
    merge_with_django_properties graphene_type field_dict = Ok r →
    (∀ k, k ∈ keys bag →
          k ∈ keys field_dict ∧ k ∈ map f_name (meta_fields model)) →
    "defaults" ∉ keys bag →
    input_type_parameters_for_update_or_create r bag
    = Ok (("defaults",
           VDict (List.filter (λ kv, negb (is_match_key r kv.1)) bag))
            :: List.filter (λ kv, is_match_key r kv.1) bag).
Proof.
  intros graphene_type model field_dict r bag Hmodel Hr Hbag Hdef.
  rewrite partition_filters.
  - unfold dict_defaults.
    destruct (has "defaults" _) eqn:Hh; [| done].
    apply has_keys, elem_of_keys in Hh as [v [Hin _]%elem_of_List_filter].
    exfalso. apply Hdef, elem_of_keys. eauto.
  - intros k Hk. destruct (Hbag k Hk) as [Hpol Hmod].
    apply get_Some_keys in Hpol as [v Hv].
    destruct (merge_with_django_properties_entry _ _ _ _ _ Hr Hv)
      as (model' & parsed & Hmodel' & Hparse & Hget).
    assert (model' = model) as -> by congruence.
    destruct (parse_django_class_has _ _ _ k Hparse) as [vb Hvb];
      [apply get_Some_keys; eauto | done |].
    rewrite Hvb in Hget.
    pose proof (get_Some_elem_of _ _ _ Hvb) as Hin.
    destruct (parse_django_class_entry _ _ _ _ _ Hparse Hin)
      as (field & w & _ & _ & _ & Hp).
    unfold process_field in Hp.
    destruct (django_to_graphene_type field (Some w)); simpl in Hp; [| done].
    injection Hp as <-. eexists _, _. split; [exact Hget | reflexivity].
Qed.

Lemma merged_fields_partition_witness :
  let model := mkModel [mkField "id" "id" AutoField true false;
                        mkField "key" "key" CharField false true;
                        mkField "note" "note" TextField false false] [] in
  let NoteType := mkGrapheneType 3 "NoteType" (Some model) in
  let policy := [("id", FV None None None [(CREATE, PTag DENY)] None);
                 ("key", FV None None None [(CREATE, PTag REQUIRE)] None);
                 ("note", FV None None None [] None)] in
  let r := default [] (match merge_with_django_properties NoteType policy with
                       | Ok r => Some r
                       | Raise _ => None
                       end) in
  input_type_parameters_for_update_or_create r
    [("key", VStr "k1"); ("note", VStr "hello")]
  = Ok [("defaults", VDict [("note", VStr "hello")]); ("key", VStr "k1")].
Proof.
  intros model NoteType policy r.
  refine (merged_fields_partition NoteType model policy r
            [("key", VStr "k1"); ("note", VStr "hello")] eq_refl _ _ _).
  - vm_compute. reflexivity.
  - intros k Hk. simpl in Hk.
    apply elem_of_cons in Hk as [-> | Hk];
      [| apply elem_of_cons in Hk as [-> | Hk]; [| inversion Hk]];
      split; simpl; compute_done.
  - simpl. compute_done.
Defined.

(** ** The generator: what its calls keep *)

(** X6. Every call of the generator, by any entry point, nested or not,
    and whether it returns or raises, is compared here between the state in
    which it starts and the state in which it ends, and so is any sequence
    of such calls made one after the other: a key registered at the start
    is registered with the same handle at the end, and a class on the heap
    at the start is the same class at the same address at the end. A key
    that is not registered when a call starts is outside the statement:
    the policy [node_policy], which relates a type to itself, has such a
    key, bound by a nested call and bound again by the call around it. *)
Theorem generator_calls_only_add :
  ∀ (s s' : State),
    later s s' →
    (∀ key h, cache s !! key = Some h → cache s' !! key = Some h)
    ∧ (∀ h cls, heap s !! h = Some cls → heap s' !! h = Some cls).
Proof.
  intros s s' [Hcache Hheap]%later_extends. split.
  - intros key h Hk. by eapply lookup_weaken.
  - intros h cls Hh. by eapply prefix_lookup_Some.
Qed.

Lemma generator_calls_only_add_witness :
  let s1 := (input_type_class 2 job_policy CREATE s_empty).2 in
  let s2 := (allowed_query_arguments (input_type_class 2)
               (default [] (fv_fields job_policy)) s1).2 in
  cache s2 !! (2, CREATE) = Some 1.
Proof.
  intros s1 s2.
  refine (proj1 (generator_calls_only_add s1 s2 _) (2, CREATE) 1 _).
  - eapply later_call; [apply later_now |].
    eapply (call_allowed_query_arguments 2 (default [] (fv_fields job_policy)) s1
              (allowed_query_arguments (input_type_class 2)
                 (default [] (fv_fields job_policy)) s1).1).
    apply surjective_pairing.
  - vm_compute. reflexivity.
Defined.

Lemma keeps_ret {A} (a : A) : keeps (mret a).
Proof. by intros s r s' Hv [= <- <-]. Qed.

Lemma keeps_lift {A} (x : result A) : keeps (lift x).
Proof. by intros s r s' Hv [= <- <-]. Qed.

Lemma keeps_raise {A} (e : exn) : keeps (@raise A e).
Proof. by intros s r s' Hv [= <- <-]. Qed.

Lemma keeps_bind {A B} (m : M A) (k : A → M B) :
  keeps m → (∀ a, keeps (k a)) → keeps (m ≫= k).
Proof.
  intros Hm Hk s r s' Hv [(a & s1 & H1 & H2) | (e & H1 & _)]%bind_inv.
  - eapply Hk; [| exact H2]. eapply Hm; eassumption.
  - eapply Hm; eassumption.
Qed.

Lemma keeps_map_dict {A B} (f : A → M B) (d : dict A) :
  (∀ a, keeps (f a)) → keeps (map_dict f d).
Proof.
  intros Hf. induction d as [|[k a] d IH]; simpl; [apply keeps_ret |].
  apply keeps_bind; [apply Hf | intros b].
  apply keeps_bind; [apply IH | intros rest; apply keeps_ret].
Qed.

Lemma keeps_handle_new_class c : keeps_handle (new_class c).
Proof.
  split.
  - intros s r s' Hv [= <- <-] key h Hk. simpl in *.
    rewrite length_app. simpl. specialize (Hv key h Hk). lia.
  - intros s h s' Hv [= <- <-]. simpl. rewrite length_app. simpl. lia.
Qed.

Lemma keeps_handle_memoize {A B} (key_of : A * B → result (nat * Crud))
      (f : A → B → M handle) (a : A) (b : B) :
  keeps_handle (f a b) → keeps_handle (memoize key_of f a b).
Proof.
  intros [Hk Hh]. unfold memoize. split.
  - intros s r s' Hv.
    destruct (key_of (a, b)) as [key|e]; [| by intros [= <- <-]].
    destruct (cache s !! key) as [h|] eqn:Hkey; [by intros [= <- <-] |].
    destruct (f a b s) as [[h|e] s1] eqn:Hfs; intros [= <- <-].
    + intros key' h' Hk'. simpl in *.
      destruct (decide (key = key')) as [<-|Hne].
      * rewrite lookup_insert_eq in Hk'. injection Hk' as <-. by eapply Hh.
      * rewrite lookup_insert_ne in Hk' by done.
        by eapply (Hk _ _ _ Hv Hfs).
    + by eapply Hk.
  - intros s h s' Hv.
    destruct (key_of (a, b)) as [key|e]; [| done].
    destruct (cache s !! key) as [h0|] eqn:Hkey.
    + intros [= <- <-]. by eapply Hv.
    + destruct (f a b s) as [[h1|e] s1] eqn:Hfs; intros [= <- <-].
      simpl. by eapply Hh.
Qed.

Section generator_keeps.
Variable self : FieldValue → Crud → M handle.
Hypothesis self_keeps : ∀ v c, keeps_handle (self v c).

Lemma keeps_instantiate_graphene_type v c :
  keeps (instantiate_graphene_type self v c).
Proof.
  unfold instantiate_graphene_type.
  apply keeps_bind; [apply keeps_lift | intros [sc | n | v']];
    [apply keeps_ret .. |].
  apply keeps_bind; [apply self_keeps | intros h; apply keeps_ret].
Qed.

Lemma keeps_input_type_fields fields_dict crud :
  keeps (input_type_fields self fields_dict crud).
Proof.
  unfold input_type_fields. apply keeps_map_dict.
  intros v. apply keeps_instantiate_graphene_type.
Qed.

Lemma keeps_handle_input_type_class_body v c :
  keeps_handle (input_type_class_body self v c).
Proof.
  unfold input_type_class_body. split.
  - apply keeps_bind; [apply keeps_lift | intros g].
    apply keeps_bind; [apply keeps_lift | intros fields].
    apply keeps_bind; [apply keeps_input_type_fields | intros attrs].
    apply keeps_handle_new_class.
  - intros s h s' Hv (g & sa & Hg & H)%bind_Ok_inv.
    apply bind_Ok_inv in H as (fields & sb & Hf & H).
    apply bind_Ok_inv in H as (attrs & sc & Hattrs & Hnew).
    injection Hnew as <- <-. simpl. rewrite length_app. simpl. lia.
Qed.

Lemma keeps_allowed_query_arguments fields_dict :
  keeps (allowed_query_arguments self fields_dict).
Proof.
  unfold allowed_query_arguments. apply keeps_map_dict. intros v.
  apply keeps_bind; [apply keeps_lift | intros [sc | n | v']];
    [apply keeps_ret | ..];
    (apply keeps_bind; [apply self_keeps | intros h; apply keeps_ret]).
Qed.
End generator_keeps.

Lemma keeps_handle_input_type_class depth v c :
  keeps_handle (input_type_class depth v c).
Proof.
  revert v c. induction depth as [|d IH]; intros v c; simpl;
    apply keeps_handle_memoize.
  - split; [apply keeps_raise | done].
  - by apply keeps_handle_input_type_class_body.
Qed.

Lemma call_keeps_valid s s' : registry_valid s → call s s' → registry_valid s'.
Proof.
  intros Hv Hcall. revert Hv.
  destruct Hcall as [depth v c s0 r s0' H | depth fd c s0 r s0' H
                     | depth v c s0 r s0' H | depth fd s0 r s0' H]; intros Hv.
  - exact (proj1 (keeps_handle_input_type_class depth v c) _ _ _ Hv H).
  - exact (keeps_input_type_fields _ (keeps_handle_input_type_class depth)
             fd c _ _ _ Hv H).
  - exact (keeps_instantiate_graphene_type _
             (keeps_handle_input_type_class depth) v c _ _ _ Hv H).
  - exact (keeps_allowed_query_arguments _
             (keeps_handle_input_type_class depth) fd _ _ _ Hv H).
Qed.

(** X7. Every handle of the registry is the address of a class of the heap:
    this holds of the empty registry, and every call of the generator keeps
    it, so no call ever registers or returns a dangling handle. *)
Theorem registry_handles_in_heap :
  registry_valid s_empty
  ∧ ∀ (s s' : State),
      registry_valid s →
      later s s' →
      (∀ key h, cache s' !! key = Some h → is_Some (heap s' !! h))
      ∧ (∀ depth v c h s'', input_type_class depth v c s' = (Ok h, s'') →
                            is_Some (heap s'' !! h)).
Proof.
  split; [by intros key h |].
  intros s s' Hv Hlater.
  assert (Hv' : registry_valid s').
  { induction Hlater as [|s s1 s2 _ IH Hcall]; [done |].
    eapply call_keeps_valid; [by apply IH | done]. }
  split.
  - intros key h Hk. apply lookup_lt_is_Some. exact (Hv' key h Hk).
  - intros depth v c h s'' H. apply lookup_lt_is_Some.
    exact (proj2 (keeps_handle_input_type_class depth v c) _ _ _ Hv' H).
Qed.

Lemma registry_handles_in_heap_witness :
  let s1 := (input_type_class 2 job_policy CREATE s_empty).2 in
  is_Some (heap s1 !! 1).
Proof.
  intros s1.
  refine (proj1 (proj2 registry_handles_in_heap s_empty s1
                       (proj1 registry_handles_in_heap) _) (2, CREATE) 1 _).
  - eapply later_call; [apply later_now |].
    eapply (call_input_type_class 2 job_policy CREATE s_empty
              (input_type_class 2 job_policy CREATE s_empty).1).
    apply surjective_pairing.
  - vm_compute. reflexivity.
Defined.

(** ** The generator: what a generated type holds *)

Lemma prop_eq_or_deny_tag (c : Crud) (v : FieldValue) :
  prop_eq_or false c DENY v = true ↔ perm c (fv_perms v) = Some (PTag DENY).
Proof.
  unfold prop_eq_or. destruct (perm c (fv_perms v)) as [[t|ts]|]; [| done..].
  rewrite String.eqb_eq. split; [by intros -> | by intros [= ->]].
Qed.

Lemma keys_filter_sublist {V} (p : string * V → bool) (d : dict V) :
  keys (List.filter p d) `sublist_of` keys d.
Proof.
  unfold keys. induction d as [|kv d IH]; simpl; [done |].
  destruct (p kv); rewrite ?fmap_cons; by constructor.
Qed.

(** X8. The type that [input_type_fields] returns for an operation leaves
    out exactly the fields whose entry for that operation is the single tag
    DENY: its keys are the keys of all the other fields, in the order of the
    field dict. *)
Theorem input_type_fields_excludes_deny_tag :
  ∀ (self : FieldValue → Crud → M handle) (fields_dict : dict FieldValue)
    (c : Crud) (s s' : State) (attrs : dict FieldInstance),
    input_type_fields self fields_dict (Some c) s = (Ok attrs, s') →
    (∀ k, k ∈ keys attrs
          ↔ ∃ v, (k, v) ∈ fields_dict
                 ∧ perm c (fv_perms v) ≠ Some (PTag DENY))
    ∧ keys attrs `sublist_of` keys fields_dict.
Proof.
  intros self fields_dict c s s' attrs H.
  rewrite (input_type_fields_keys _ _ _ _ _ _ H). split.
  - intros k. rewrite elem_of_keys. split.
    + intros [v [Hin Hp]%elem_of_List_filter]. exists v. split; [done |].
      simpl in Hp. rewrite <- prop_eq_or_deny_tag.
      by destruct (prop_eq_or false c DENY v).
    + intros (v & Hin & Hp). exists v. apply elem_of_List_filter.
      split; [done |]. simpl. rewrite <- prop_eq_or_deny_tag in Hp.
      by destruct (prop_eq_or false c DENY v).
  - apply keys_filter_sublist.
Qed.

Lemma input_type_fields_excludes_deny_tag_witness :
  let fields_dict :=
    [("id", FV (Some (TScalar graphene_Int)) None None
               [(CREATE, PTag DENY); (UPDATE, PTag REQUIRE)] None);
     ("name", FV (Some (TScalar graphene_String)) None None
                 [(CREATE, PTag REQUIRE)] None)] in
  keys [("name", ScalarInstance graphene_String true)]
  `sublist_of` keys fields_dict.
Proof.
  intros fields_dict.
  exact (proj2 (input_type_fields_excludes_deny_tag (input_type_class 0)
                  fields_dict CREATE s_empty s_empty
                  [("name", ScalarInstance graphene_String true)] eq_refl)).
Defined.

(** X9. The query arguments that [allowed_query_arguments] returns are those
    of the fields whose READ entry neither is DENY nor is a list with DENY
    in it, in the order of the field dict; and no argument is required. *)
Theorem allowed_query_arguments_readable :
  ∀ (self : FieldValue → Crud → M handle) (fields_dict : dict FieldValue)
    (s s' : State) (args : dict FieldInstance),
    allowed_query_arguments self fields_dict s = (Ok args, s') →
    (∀ k, k ∈ keys args
          ↔ ∃ v, (k, v) ∈ fields_dict ∧ ¬ marks READ DENY v)
    ∧ keys args `sublist_of` keys fields_dict
    ∧ (∀ k a, (k, a) ∈ args → required a = false).
Proof.
  intros self fields_dict s s' args H.
  rewrite (allowed_query_arguments_keys _ _ _ _ _ H). split_and!.
  - intros k. rewrite elem_of_keys. split.
    + intros [v [Hin Hp]%elem_of_List_filter]. exists v. split; [done |].
      simpl in Hp. unfold prop_eq_or_in in Hp.
      rewrite <- prop_eq_or_in_or_marks.
      by destruct (prop_eq_or_in_or false READ DENY v).
    + intros (v & Hin & Hp). exists v. apply elem_of_List_filter.
      split; [done |]. simpl. unfold prop_eq_or_in.
      rewrite <- prop_eq_or_in_or_marks in Hp.
      by destruct (prop_eq_or_in_or false READ DENY v).
  - apply keys_filter_sublist.
  - intros k a [i Hi]%list_elem_of_lookup.
    unfold allowed_query_arguments in H. apply map_dict_Ok in H.
    destruct (Forall2_lookup_r _ _ _ _ _ H Hi)
      as ([k' v] & _ & _ & sa & sb & Ha).
    simpl in Ha. apply bind_Ok_inv in Ha as (t & s1 & _ & Ha).
    destruct t as [sc | n | v'].
    + by injection Ha as <- _.
    + apply bind_Ok_inv in Ha as (h & s2 & _ & Ha). by injection Ha as <- _.
    + apply bind_Ok_inv in Ha as (h & s2 & _ & Ha). by injection Ha as <- _.
Qed.

Lemma allowed_query_arguments_readable_witness :
  let fields_dict :=
    [("password", FV (Some (TScalar graphene_String)) None None
                     [(READ, PTag DENY); (CREATE, PTag REQUIRE)] None);
     ("name", FV (Some (TScalar graphene_String)) None None
                 [(CREATE, PTag REQUIRE)] None)] in
  keys [("name", ScalarInstance graphene_String false)]
  `sublist_of` keys fields_dict.
Proof.
  intros fields_dict.
  exact (proj1 (proj2 (allowed_query_arguments_readable (input_type_class 0)
                         fields_dict s_empty s_empty
                         [("name", ScalarInstance graphene_String false)]
                         eq_refl))).
Defined.

Lemma map_dict_pure {A B} (f g : A → M B) (d : dict A) (s : State) :
  (∀ k a, (k, a) ∈ d → ∀ s0, f a s0 = g a s0 ∧ (f a s0).2 = s0) →
  map_dict f d s = map_dict g d s ∧ (map_dict f d s).2 = s.
Proof.
  revert s. induction d as [|[k a] d IH]; intros s Hf; simpl; [done |].
  destruct (Hf k a ltac:(left) s) as [Hfg Hs].
  destruct (IH s (λ k' a' Hin, Hf k' a' ltac:(by right))) as [IHeq IHs].
  unfold mbind, M_bind. rewrite <- Hfg.
  destruct (f a s) as [[b|e] s1] eqn:Hfa; simpl in Hs; subst s1; [| done].
  unfold mbind, M_bind in IHeq. rewrite <- IHeq.
  destruct (map_dict f d s) as [[rest|e] s2] eqn:Hrest; simpl in IHs; subst s2;
    done.
Qed.

(** X10. Building the fields of a type touches the registry and the heap
    only for related fields: when no field of the dict has a related type,
    [input_type_fields] leaves the state as it found it and its result does
    not depend on what [input_type_class] would do. *)
Theorem input_type_fields_unrelated :
  ∀ (self self' : FieldValue → Crud → M handle)
    (fields_dict : dict FieldValue) (crud : option Crud) (s : State),
    (∀ k v v', (k, v) ∈ fields_dict → fv_type v ≠ Some (TRelated v')) →
    input_type_fields self fields_dict crud s
    = input_type_fields self' fields_dict crud s
    ∧ (input_type_fields self fields_dict crud s).2 = s.
Proof.
  intros self self' fields_dict crud s Hun. unfold input_type_fields.
  apply map_dict_pure. intros k v [Hin _]%elem_of_List_filter s0.
  unfold instantiate_graphene_type, mbind, M_bind, lift.
  specialize (Hun k v). destruct (fv_type v) as [[sc | n | v']|]; try done.
  exfalso. by eapply Hun.
Qed.

Lemma input_type_fields_unrelated_witness :
  let fields_dict :=
    [("id", FV (Some (TScalar graphene_Int)) None None
               [(UPDATE, PTag REQUIRE)] None);
     ("name", FV None None None [] None)] in
  (input_type_fields (input_type_class 5) fields_dict (Some UPDATE) s_empty).2
  = s_empty.
Proof.
  intros fields_dict.
  refine (proj2 (input_type_fields_unrelated (input_type_class 5)
                   (input_type_class 0) fields_dict (Some UPDATE) s_empty _)).
  intros k v v' Hin.
  apply elem_of_cons in Hin as [[= -> ->] | Hin]; [done |].
  apply elem_of_cons in Hin as [[= -> ->] | Hin]; [done | inversion Hin].
Defined.



(** The related field that the class of [node_policy] holds for [parent]
    was made while that class was being built: it wraps the class at 0,
    and a related field for the same graphene type made after the call
    wraps the class at 1. *)
Lemma related_input_field_nested_own_class :
  let outer := input_type_class 2 node_policy CREATE s_empty in
  class_attrs <$> heap outer.2 !! 1 = Some [("parent", InputField 0 false)]
  ∧ related_input_field (input_type_class 2) node_by_id false CREATE outer.2
    = (Ok (InputField 1 false), outer.2).
Proof. vm_compute. done. Qed.

(** The related branch of [instantiate_graphene_type] is
    [related_input_field_for_crud_type] applied to the crud and then to
    [required]. *)
Lemma instantiate_graphene_type_related self value fdv c s :
  fv_type value = Some (TRelated fdv) →
  instantiate_graphene_type self value c s
  = related_input_field_for_crud_type self fdv c
      (prop_eq_or_in_or false c REQUIRE value) s.
Proof.
  intros Ht. unfold instantiate_graphene_type, mbind, M_bind, lift.
  by rewrite Ht.
Qed.

Lemma map_dict_Ok_final {A B} (f : A → M B) (d : dict A) s r s' :
  (∀ a, grows (f a)) →
  map_dict f d s = (Ok r, s') →
  Forall2 (λ kv ki, ki.1 = kv.1
                    ∧ ∃ sa sb, f kv.2 sa = (Ok ki.2, sb) ∧ extends sb s')
          d r.
Proof.
  intros Hf. revert s r. induction d as [|[k a] d IH]; intros s r; simpl.
  - intros [= <- <-]. constructor.
  - intros (b & s1 & Hb & H)%bind_Ok_inv.
    apply bind_Ok_inv in H as (rest & s2 & Hrest & H).
    injection H as <- <-. constructor; [| by eapply IH].
    simpl. split; [done |]. exists s, s1. split; [done |].
    by eapply grows_map_dict.
Qed.

(** X12. In a type that [input_type_fields] returns, every input field of a
    related type holds the handle that the registry has, when the call
    returns, for the graphene type of that relation and the operation of
    the call. *)
Theorem input_type_fields_related_registered :
  ∀ (depth : nat) (fields_dict : dict FieldValue) (c : Crud)
    (s s' : State) (attrs : dict FieldInstance) (k : string)
    (h : handle) (r : bool),
    input_type_fields (input_type_class depth) fields_dict (Some c) s
    = (Ok attrs, s') →
    (k, InputField h r) ∈ attrs →
    ∃ v fdv g,
      (k, v) ∈ fields_dict
      ∧ fv_type v = Some (TRelated fdv)
      ∧ fv_graphene_type fdv = Some g
      ∧ cache s' !! (gt_id g, c) = Some h.
Proof.
  intros depth fields_dict c s s' attrs k h r H [i Hi]%list_elem_of_lookup.
  unfold input_type_fields in H. apply map_dict_Ok_final in H.
  2:{ intros v. apply grows_instantiate_graphene_type.
      apply grows_input_type_class. }
  destruct (Forall2_lookup_r _ _ _ _ _ H Hi)
    as ([k' v] & Hv & Hk & sa & sb & Hinst & [Hcache _]).
  simpl in *. subst k'.
  apply list_elem_of_lookup_2, elem_of_List_filter in Hv as [Hv _].
  unfold instantiate_graphene_type in Hinst.
  apply bind_Ok_inv in Hinst as (t & s1 & Ht & Hinst).
  unfold lift in Ht. destruct (fv_type v) as [t'|] eqn:Htype; [| done].
  injection Ht as -> <-. destruct t as [sc | n | fdv]; [done | done |].
  apply bind_Ok_inv in Hinst as (h' & s2 & Hh & Hret).
  injection Hret as -> _ <-.
  destruct (input_type_class_registers _ _ _ _ _ _ Hh) as (key & Hkey & Hreg).
  unfold map_args in Hkey. simpl in Hkey.
  destruct (fv_graphene_type fdv) as [g|] eqn:Hg; [| done].
  injection Hkey as <-. exists v, fdv, g. split_and!; try done.
  by eapply lookup_weaken.
Qed.

Lemma input_type_fields_related_registered_witness :
  let fields_dict :=
    [("owner", FV (Some (TRelated widget_id_only)) None None [] None)] in
  let res := input_type_fields (input_type_class 1) fields_dict (Some CREATE)
                               s_empty in
  ∃ v fdv g,
    ("owner", v) ∈ fields_dict
    ∧ fv_type v = Some (TRelated fdv)
    ∧ fv_graphene_type fdv = Some g
    ∧ cache res.2 !! (gt_id g, CREATE) = Some 0.
Proof.
  intros fields_dict res.
  refine (input_type_fields_related_registered 1 fields_dict CREATE s_empty
            res.2 [("owner", InputField 0 false)] "owner" 0 false _ _).
  - reflexivity.
  - left.
Defined.

Lemma append_inj_l (s a b : string) : s +:+ a = s +:+ b → a = b.
Proof.
  induction s as [|c s IH]; simpl; [done |]. intros [= H]. by apply IH.
Qed.

(** X13. The classes that [input_type_class] builds for one graphene type
    carry a different name for each CRUD operation. *)
Theorem class_name_for_distinct :
  ∀ (g : GrapheneType) (c c' : Crud),
    class_name_for g c = class_name_for g c' → c = c'.
Proof.
  intros g c c' H. unfold class_name_for in H.
  apply append_inj_l in H. by destruct c, c'.
Qed.

Lemma class_name_for_distinct_witness :
  class_name_for WidgetType CREATE = "WidgetTypeRelatedCreateInputType"
  ∧ UPDATE = UPDATE.
Proof.
  split; [reflexivity |].
  exact (class_name_for_distinct WidgetType UPDATE UPDATE eq_refl).
Defined.

(** Called without a crud, [input_type_fields] takes the operation
    from the field dict itself: it builds the UPDATE type when the dict has
    a field named [id], whatever that field allows, and the CREATE type
    otherwise. *)
Lemma input_type_fields_default_crud :
  ∀ (self : FieldValue → Crud → M handle) (fields_dict : dict FieldValue),
    ("id" ∈ keys fields_dict →
     input_type_fields self fields_dict None
     = input_type_fields self fields_dict (Some UPDATE))
    ∧ ("id" ∉ keys fields_dict →
       input_type_fields self fields_dict None
       = input_type_fields self fields_dict (Some CREATE)).
Proof.
  intros self fields_dict. unfold input_type_fields, guess_update_or_create.
  split; intros Hid.
  - apply has_keys in Hid. by rewrite Hid.
  - destruct (has "id" fields_dict) eqn:Hh; [| done].
    by apply has_keys in Hh.
Qed.

Lemma input_type_fields_default_crud_witness :
  let fields_dict :=
    [("id", FV (Some (TScalar graphene_Int)) None None
               [(CREATE, PTag DENY); (UPDATE, PTag REQUIRE)] None)] in
  input_type_fields (input_type_class 0) fields_dict None s_empty
  = (Ok [("id", ScalarInstance graphene_Int true)], s_empty).
Proof.
  intros fields_dict.
  rewrite (proj1 (input_type_fields_default_crud (input_type_class 0)
                    fields_dict)).
  - reflexivity.
  - simpl. compute_done.
Defined.

(** ** The documents *)

Lemma string_app_assoc (a b c : string) : (a +:+ b) +:+ c = a +:+ b +:+ c.
Proof.
  induction a as [|x a IH]; [reflexivity |].
  change (String x ((a +:+ b) +:+ c) = String x (a +:+ b +:+ c)).
  by rewrite IH.
Qed.

Lemma concat_cons_nonempty (sep x : string) (l : list string) :
  x ≠ "" → String.concat sep (x :: l) ≠ "".
Proof.
  intros Hx. destruct x as [|c x]; [done |]. simpl. by destruct l.
Qed.

(** X14. With variable definitions, the query declares every variable, in
    the order given, as [$name: Type!], and hands each to the root field as
    the argument of the same name: the declaration list and the argument
    list are never one without the other, and the client gets this document
    with its keyword arguments. *)
Theorem graphql_query_with_variables :
  ∀ (K A : Type) (client_execute : string → K → A) (kwargs : K)
    (query_name : string) (fields : dict FieldValue)
    (variable_definitions : dict string),
    variable_definitions ≠ [] →
    graphql_query query_name fields client_execute variable_definitions []
                  kwargs
    = client_execute
        ("query someMadeUpString("
         +:+ String.concat ", "
               (map (λ kv, "$" +:+ kv.1 +:+ ": " +:+ kv.2 +:+ "!")
                    variable_definitions)
         +:+ ") { " +:+ nl
         +:+ spaces 16 +:+ query_name +:+ "("
         +:+ String.concat ", "
               (map (λ kv, kv.1 +:+ ": $" +:+ kv.1) variable_definitions)
         +:+ ") {" +:+ nl
         +:+ spaces 20 +:+ dump_graphql_keys fields +:+ nl
         +:+ spaces 16 +:+ "}" +:+ nl
         +:+ spaces 12 +:+ "}")
        kwargs.
Proof.
  intros K A client_execute kwargs query_name fields vd Hvd.
  unfold graphql_query. f_equal.
  destruct vd as [|[k t] vd]; [done |].
  assert (Hdecl : values (map (λ kv : string * string,
                                 (kv.1, "$" +:+ kv.1 +:+ ": " +:+ kv.2 +:+ "!"))
                              ((k, t) :: vd))
                  = map (λ kv : string * string,
                           "$" +:+ kv.1 +:+ ": " +:+ kv.2 +:+ "!")
                        ((k, t) :: vd)).
  { unfold values. rewrite <- list_fmap_compose. done. }
  rewrite Hdecl.
  assert (Hargs : map (λ key, key +:+ ": $" +:+ key) (keys ((k, t) :: vd))
                  = map (λ kv : string * string, kv.1 +:+ ": $" +:+ kv.1)
                        ((k, t) :: vd)).
  { unfold keys. rewrite <- list_fmap_compose. done. }
  rewrite Hargs.
  destruct (String.eqb_spec
              (String.concat ", "
                 (map (λ kv : string * string,
                         "$" +:+ kv.1 +:+ ": " +:+ kv.2 +:+ "!")
                      ((k, t) :: vd))) "") as [Hempty|_].
  - exfalso. revert Hempty. by apply concat_cons_nonempty.
  - rewrite !string_app_assoc. reflexivity.
Qed.

Lemma graphql_query_with_variables_witness :
  words (query_document "users" [("id", FV None None None [] None)]
                        [("id", "String"); ("name", "String")] [])
  = ["query"; "someMadeUpString($id:"; "String!,"; "$name:"; "String!)"; "{";
     "users(id:"; "$id,"; "name:"; "$name)"; "{"; "id"; "}"; "}"].
Proof.
  unfold query_document.
  rewrite (graphql_query_with_variables unit string (λ document _, document)
             tt "users" [("id", FV None None None [] None)]
             [("id", "String"); ("name", "String")]).
  - reflexivity.
  - discriminate.
Defined.



(** ** When the partitioner and the merge fail *)

(** X16. On a values bag whose keys all belong to resolved specs, the
    partitioner raises exactly when the bag has the key [defaults] and the
    spec of [defaults] has a nonempty list of uniqueness tags; the error is
    then the TypeError of [dict(defaults=..., **rest)], which is given the
    keyword [defaults] twice. *)
Theorem partition_raises_iff_defaults_clash :
  ∀ (fields_dict : dict FieldValue) (bag : dict pyval),
    (∀ k, k ∈ keys bag → resolved fields_dict k) →
    (input_type_parameters_for_update_or_create fields_dict bag = Raise TypeError
     ↔ "defaults" ∈ keys bag ∧ is_match_key fields_dict "defaults" = true)
    ∧ (∀ e, input_type_parameters_for_update_or_create fields_dict bag = Raise e →
            e = TypeError).
Proof.
  intros fields_dict bag Hres. rewrite partition_filters by done.
  unfold dict_defaults.
  destruct (has "defaults" (List.filter _ bag)) eqn:Hh.
  - apply has_keys, elem_of_keys in Hh as [v [Hin Hm]%elem_of_List_filter].
    split; [| by intros e [= <-]].
    split; [intros _ | done].
    split; [apply elem_of_keys; eauto | exact Hm].
  - split; [| by intros e [=]].
    split; [done |]. intros [[v Hin]%elem_of_keys Hm].
    assert (Hk : "defaults" ∈ keys (List.filter
                    (λ kv, is_match_key fields_dict kv.1) bag)).
    { apply elem_of_keys. exists v. by apply elem_of_List_filter. }
    apply has_keys in Hk. congruence.
Qed.

Lemma partition_raises_iff_defaults_clash_witness :
  input_type_parameters_for_update_or_create
    [("defaults", FV None None None [] (Some [UTag UNIQUE]));
     ("note", FV None None None [] (Some []))]
    [("note", VStr "b"); ("defaults", VInt 1)]
  = Raise TypeError.
Proof.
  refine (proj2 (proj1 (partition_raises_iff_defaults_clash
                          [("defaults", FV None None None [] (Some [UTag UNIQUE]));
                           ("note", FV None None None [] (Some []))]
                          [("note", VStr "b"); ("defaults", VInt 1)] _)) _).
  - intros k Hk. unfold resolved.
    apply elem_of_cons in Hk as [-> | Hk]; [simpl; eauto |].
    apply elem_of_cons in Hk as [-> | Hk]; [simpl; eauto |].
    inversion Hk.
  - split; [| reflexivity]. apply elem_of_keys. exists (VInt 1). right. left.
Defined.

Lemma map_r_Ok_elem {A B} (f : A → result B) (l : list A) (r : list B) (a : A) :
  map_r f l = Ok r → a ∈ l → ∃ b, f a = Ok b.
Proof.
  intros Hmap%map_r_Ok [i Hi]%list_elem_of_lookup.
  destruct (Forall2_lookup_l _ _ _ _ _ Hmap Hi) as (b & _ & Hb). eauto.
Qed.

(** X17. For a graphene type with a model, the merge raises exactly when
    the policy names a model field whose class is outside the table of
    [django_to_graphene_type] and gives it no [graphene_type]; the error is
    then a KeyError, and the merge raises no other error. *)
Theorem merge_raises_iff_unmapped_class :
  ∀ (graphene_type : GrapheneType) (model : Model)
    (field_dict : dict FieldValue),
    gt_model graphene_type = Some model →
    (merge_with_django_properties graphene_type field_dict = Raise KeyError
     ↔ ∃ field v, field ∈ meta_fields model
                  ∧ get (f_name field) field_dict = Some v
                  ∧ fv_graphene_type v = None
                  ∧ mapped (f_class field) = false)
    ∧ (∀ e, merge_with_django_properties graphene_type field_dict = Raise e →
            e = KeyError).
Proof.
  intros graphene_type model field_dict Hmodel.
  unfold merge_with_django_properties. rewrite Hmodel.
  destruct (parse_django_class model field_dict) as [parsed|e] eqn:Hp; simpl.
  - split; [| by intros e [=]]. split; [done |].
    intros (field & v & Hin & Hv & Hg & Hc). exfalso.
    unfold parse_django_class in Hp.
    destruct (map_r _ _) as [pairs|e] eqn:Hmap; simpl in Hp; [| done].
    destruct (map_r_Ok_elem _ _ _ field Hmap) as [b Hb].
    { apply elem_of_List_filter. split; [done |]. unfold has. by rewrite Hv. }
    unfold prop in Hb. rewrite Hv in Hb. simpl in Hb.
    unfold process_field, django_to_graphene_type in Hb.
    destruct v as [t g f p u]. simpl in Hg. subst g.
    destruct (f_class field); done.
  - pose proof (parse_django_class_Raise _ _ _ Hp) as ->.
    split; [| by intros e [= <-]]. split; [intros _ | done].
    unfold parse_django_class in Hp.
    destruct (map_r _ _) as [pairs|e] eqn:Hmap; simpl in Hp; [done |].
    apply map_r_Raise in Hmap as (field & [Hin Hhas]%elem_of_List_filter & Hf).
    unfold prop, has in *.
    destruct (get (f_name field) field_dict) as [v|] eqn:Hv; [| done].
    simpl in Hf. exists field, v.
    destruct (fv_graphene_type v) as [g|] eqn:Hg.
    + destruct (django_to_graphene_type_mapped field v) as [t Ht]; [left; eauto |].
      unfold process_field in Hf. rewrite Ht in Hf. done.
    + destruct (mapped (f_class field)) eqn:Hc; [| done].
      destruct (django_to_graphene_type_mapped field v) as [t Ht]; [by right |].
      unfold process_field in Hf. rewrite Ht in Hf. done.
Qed.

Lemma merge_raises_iff_unmapped_class_witness :
  let model := mkModel [mkField "id" "id" AutoField true false;
                        mkField "owner" "owner_id" (OtherField "ForeignKey")
                                false false] [] in
  let JobType := mkGrapheneType 3 "JobType" (Some model) in
  let policy := [("id", FV None None None [] None);
                 ("owner", FV None None None [(CREATE, PTag ALLOW)] None)] in
  merge_with_django_properties JobType policy = Raise KeyError.
Proof.
  intros model JobType policy.
  refine (proj2 (proj1 (merge_raises_iff_unmapped_class JobType model policy
                          eq_refl)) _).
  exists (mkField "owner" "owner_id" (OtherField "ForeignKey") false false),
         (FV None None None [(CREATE, PTag ALLOW)] None).
  split_and!; try reflexivity. right. left.
Defined.
